(** * cfbot: submission scheduler and patch-application pipeline

    A shallow embedding of [cfbot_commitfest_rpc.py], [cfbot_config.py]
    and [cfbot_patch.py], with the properties of the scheduler, the
    thread resolver and the patch applier proved over it.

    Conventions.
    - Python [str] and [bytes] values are [string]; character-level
      routines work on [list ascii].
    - Python [None] is [None] of an [option]; truthiness ([if x:]) is
      written out by the [truthy_*] functions.
    - A table is the list of its rows, in the physical order the
      executor scans them; every statement quantifies over that order.
    - External programs (git, tar, the network) are an environment
      [env] giving the exit code and the output of every command. *)

From Stdlib Require Import ZArith QArith Ascii String List Lia.
From Stdlib Require PrimFloat Uint63.
From stdpp Require Import base decidable option list sorting strings pretty gmap.

Local Open Scope Z_scope.

(** ** Python strings *)

Abbreviation chars := String.list_ascii_of_string (only parsing).
Abbreviation of_chars := String.string_of_list_ascii (only parsing).

(** The double quote, which a Rocq string literal cannot hold alone. *)
Definition dq : ascii := "034"%char.

(** [s.endswith(suf)] *)
Definition endswith (s suf : string) : bool :=
  bool_decide (chars suf `suffix_of` chars s).

(** [s.startswith(p)], returning what follows the prefix. *)
Fixpoint strip_literal (p s : list ascii) : option (list ascii) :=
  match p, s with
  | [], _ => Some s
  | _ :: _, [] => None
  | a :: p', b :: s' => if decide (a = b) then strip_literal p' s' else None
  end.

(** The longest run of characters other than the double quote (what the
    class of non-quote characters, starred, matches greedily), and the
    rest of the input. *)
Fixpoint span_unquoted (s : list ascii) : list ascii * list ascii :=
  match s with
  | [] => ([], [])
  | c :: s' =>
      if decide (c = dq) then ([], s)
      else let '(run, rest) := span_unquoted s' in (c :: run, rest)
  end.

(** ** cfbot_commitfest_rpc.py *)

(** The alternatives of the suffix group
    [(diff|diff\.gz|patch|patch\.gz|tar\.gz|tgz|tar\.bz2)]. *)
Definition attachment_suffixes : list string :=
  ["diff"; "diff.gz"; "patch"; "patch.gz"; "tar.gz"; "tgz"; "tar.bz2"].

Definition attachment_prefix : string := "/message-id/attachment/".

(** An anchored match, at the head of [s], of the attachment pattern
      <a href=Q(/message-id/attachment/[^Q]*\.(diff|...|tar\.bz2))Q>
    (Q is the double quote), returning group 1.  Everything between the
    two quotes is quote-free, so the group is the whole run up to the
    next quote; it must end in a dot and one of the alternatives, and the
    quote must be followed by >. *)
Definition attachment_match_here (s : list ascii) : option string :=
  rest ← strip_literal (chars "<a href=" ++ [dq] ++ chars attachment_prefix) s;
  let '(body, tail) := span_unquoted rest in
  _ ← strip_literal (dq :: chars ">") tail;
  if existsb (fun alt => endswith (of_chars body) ("." +:+ alt)) attachment_suffixes
  then Some (attachment_prefix +:+ of_chars body)
  else None.

(** [re.search]: the leftmost position at which the anchored match
    succeeds. *)
Fixpoint search {A} (here : list ascii -> option A) (s : list ascii) : option A :=
  match here s with
  | Some g => Some g
  | None => match s with [] => None | _ :: s' => search here s' end
  end.

(** Group 1 of the attachment pattern on one line. *)
Definition attachment_href (line : string) : option string :=
  search attachment_match_here (chars line).

(** The greedy group ([^Q]+) followed by the literal [lit]: the longest
    non-empty prefix of the quote-free run after which [lit] follows. *)
Fixpoint greedy_before (lit run : list ascii) : option (list ascii) :=
  match run with
  | [] => None
  | c :: run' =>
      match greedy_before lit run' with
      | Some g => Some (c :: g)
      | None => if strip_literal lit run' is Some _ then Some [c] else None
      end
  end.

(** An anchored match of the message pattern
      <td><a href=Q/message-id/[^Q]+Q>([^Q]+)</a></td>
    returning group 1. *)
Definition message_match_here (s : list ascii) : option string :=
  rest ← strip_literal (chars "<td><a href=" ++ [dq] ++ chars "/message-id/") s;
  let '(target, tail) := span_unquoted rest in
  if decide (target = []) then None else
  rest' ← strip_literal (dq :: chars ">") tail;
  let '(run, _) := span_unquoted rest' in
  of_chars <$> greedy_before (chars "</a></td>") run.

Definition message_id_of_line (line : string) : option string :=
  search message_match_here (chars line).

Definition skipped_attachment : string := "jabiru_2022-03-28_20-25-16.tar.gz".

(** The four locals of the loop of [get_latest_patches_from_thread_url].
    [selected_message_attachments] is bound to the list object of
    [message_attachments] at every append, and [message_attachments] is
    rebound to a fresh list (never cleared in place) at every message
    header, so the alias never shows a later append: the contents at the
    time of the last append are what the name holds. *)
Record scan_state := ScanState {
  selected_message_attachments : list string;
  selected_message_id : option string;
  message_attachments : list string;
  message_id : option string
}.

Definition scan_init : scan_state := ScanState [] None [] None.

(** The test [groups and not groups.group(1).endswith(...)] of the loop,
    with the URL that is appended when it passes. *)
Definition accepted_attachment (line : string) : option string :=
  match attachment_href line with
  | Some g =>
      if negb (endswith g skipped_attachment)
      then Some ("https://www.postgresql.org" +:+ g)
      else None
  | None => None
  end.

(** One iteration of the loop over the lines of the page. *)
Definition scan_line (st : scan_state) (line : string) : scan_state :=
  let st1 :=
    match accepted_attachment line with
    | Some url =>
        let atts := message_attachments st ++ [url] in
        ScanState atts (message_id st) atts (message_id st)
    | None => st
    end in
  match message_id_of_line line with
  | Some m => ScanState (selected_message_attachments st1) (selected_message_id st1) [] (Some m)
  | None => st1
  end.

Definition scan_lines (lines : list string) : scan_state :=
  fold_left scan_line lines scan_init.

Definition is_tarball (x : string) : bool :=
  endswith x ".tgz" || endswith x ".tar.gz" || endswith x ".tar.bz2".

(** [get_latest_patches_from_thread_url], on the lines of the fetched
    page ([cfbot_util.slow_fetch(thread_url).splitlines()]).  The
    attachment list is never [None] after the loop, so the test
    [selected_message_attachments != None] always passes. *)
Definition get_latest_patches_from_thread_url (lines : list string)
  : option string * option (list string) :=
  let st := scan_lines lines in
  if existsb is_tarball (selected_message_attachments st)
     && (1 <? Z.of_nat (length (selected_message_attachments st)))
  then (None, None)
  else (selected_message_id st, Some (selected_message_attachments st)).

(** ** cfbot_config.py *)

(** [CYCLE_TIME = 48.0].  It is a Python float; [number / CYCLE_TIME] is
    taken in exact rational arithmetic here.  The comparison of an integer
    count with the quotient comes out the same in binary64, which
    [float_below_target] computes for checking. *)
Definition CYCLE_TIME : Q := 48 # 1.
Definition CONCURRENT_BUILDS : Z := 1.
Definition GIT_REMOTE_NAME : string := "github".
Definition GIT_SSH_COMMAND : string := "ssh".

(** [current_rate_per_hour < number / 48.0] as Python evaluates it: the
    count is converted to a float, divided with rounding, and compared. *)
Definition float_of_count (n : Z) : PrimFloat.float :=
  PrimFloat.of_uint63 (Uint63.of_Z n).
Definition float_below_target (current number : Z) : bool :=
  PrimFloat.ltb (float_of_count current)
                (PrimFloat.div (float_of_count number) (float_of_count 48)).

(** ** The submission store *)

(** A timestamp with time zone, in microseconds since the epoch. *)
Definition timestamp := Z.
Definition one_hour : Z := 3600 * 1000000.

(** A row of [submission]: the columns the scheduler reads or writes. *)
Record submission := Submission {
  commitfest_id : Z;
  submission_id : Z;
  status : string;
  last_message_id : option string;
  last_branch_message_id : option string;
  last_branch_commit_id : option string;
  last_email_time : option timestamp;
  last_branch_time : option timestamp
}.

(** A row of [branch]: only [status] is read. *)
Record branch_row := BranchRow { branch_status : string }.

Record database := Database {
  submission_table : list submission;
  branch_table : list branch_row
}.

(** [status IN ('Ready for Committer', 'Needs review', 'Waiting on Author')] *)
Definition active_status (s : string) : bool :=
  bool_decide (s ∈ ["Ready for Committer"; "Needs review"; "Waiting on Author"]).

(** [a IS DISTINCT FROM b]: the null-safe inequality. *)
Definition is_distinct_from (a b : option string) : bool :=
  bool_decide (a ≠ b).

(** [WHERE last_message_id IS NOT NULL
       AND last_message_id IS DISTINCT FROM last_branch_message_id
       AND status IN (...)] *)
Definition where_new_patch (s : submission) : bool :=
  bool_decide (last_message_id s ≠ None)
  && is_distinct_from (last_message_id s) (last_branch_message_id s)
  && active_status (status s).

(** [WHERE last_message_id IS NOT NULL AND status IN (...)] *)
Definition where_active (s : submission) : bool :=
  bool_decide (last_message_id s ≠ None) && active_status (status s).

(** [... AND last_branch_time > now() - INTERVAL '1 hour']; a null
    [last_branch_time] makes the comparison unknown and the row is not
    kept. *)
Definition where_recently_built (now : timestamp) (s : submission) : bool :=
  where_active s &&
  match last_branch_time s with
  | Some t => now - one_hour <? t
  | None => false
  end.

(** The ascending order of [ORDER BY c], which puts nulls last. *)
Definition nulls_last_le (a b : option timestamp) : Prop :=
  match a, b with
  | Some x, Some y => x <= y
  | Some _, None => True
  | None, Some _ => False
  | None, None => True
  end.

(** The order of [ORDER BY c NULLS FIRST]. *)
Definition nulls_first_le (a b : option timestamp) : Prop :=
  match a, b with
  | Some x, Some y => x <= y
  | Some _, None => False
  | None, _ => True
  end.

#[global] Instance nulls_last_le_dec : RelDecision nulls_last_le.
Proof. intros [x|] [y|]; simpl; apply _. Defined.

#[global] Instance nulls_first_le_dec : RelDecision nulls_first_le.
Proof. intros [x|] [y|]; simpl; apply _. Defined.

(** Rows compared by a sort key. *)
Definition by_key {A K} (R : relation K) (key : A -> K) : relation A :=
  fun x y => R (key x) (key y).

#[global] Instance by_key_dec {A K} (R : relation K) `{!RelDecision R}
  (key : A -> K) : RelDecision (by_key R key).
Proof. intros x y. unfold by_key. apply _. Defined.

(** [ORDER BY]: the rows sorted on the key.  Which of several rows with
    equal keys comes first is left to the executor; here it follows from
    the order of the rows in the table, over which statements quantify. *)
Definition order_by {A K} (R : relation K) `{!RelDecision R}
  (key : A -> K) (rows : list A) : list A :=
  merge_sort (by_key R key) rows.

Definition limit {A} (n : nat) (rows : list A) : list A := take n rows.

(** [cursor.fetchone()] *)
Definition fetchone {A} (rows : list A) : option A := head rows.

(** [SELECT commitfest_id, submission_id] *)
Definition select_ids (rows : list submission) : list (Z * Z) :=
  (fun s => (commitfest_id s, submission_id s)) <$> rows.

(** [SELECT COUNT] with the star: one row with one column, always. *)
Definition select_count {A} (rows : list A) : list Z :=
  [Z.of_nat (length rows)].

(** ** cfbot_patch.py: the scheduler *)

(** [need_to_limit_rate]: [row and row[0] >= CONCURRENT_BUILDS].  A
    missing row is falsy and so is the value of the expression. *)
Definition need_to_limit_rate (db : database) : bool :=
  let row := fetchone (select_count
    (List.filter (fun b => bool_decide (branch_status b = "testing")) (branch_table db))) in
  match row with
  | Some n => CONCURRENT_BUILDS <=? n
  | None => false
  end.

(** The value every chooser returns: the pair of ids, or [(None, None)]. *)
Definition id_pair : Type := option Z * option Z.

(** [if row: return row else: return None, None]; a fetched row is a
    non-empty tuple and so is truthy. *)
Definition row_or_none (row : option (Z * Z)) : id_pair :=
  match row with
  | Some (cf, sub) => (Some cf, Some sub)
  | None => (None, None)
  end.

Definition choose_submission_with_new_patch (db : database) : id_pair :=
  row_or_none (fetchone (limit 1 (select_ids
    (order_by nulls_last_le last_email_time
       (List.filter where_new_patch (submission_table db)))))).

(** [a < b] on numbers. *)
Definition py_lt (a b : Q) : bool :=
  match (a ?= b)%Q with Lt => true | _ => false end.

(** The counts are unpacked with [number, = cursor.fetchone()]; the
    aggregate always yields its one row, so the default is never used. *)
Definition choose_submission_without_new_patch (now : timestamp) (db : database) : id_pair :=
  let number := default 0 (fetchone (select_count
    (List.filter where_active (submission_table db)))) in
  let target_per_hour := (inject_Z number / CYCLE_TIME)%Q in
  let current_rate_per_hour := default 0 (fetchone (select_count
    (List.filter (where_recently_built now) (submission_table db)))) in
  if py_lt (inject_Z current_rate_per_hour) target_per_hour then
    row_or_none (fetchone (limit 1 (select_ids
      (order_by nulls_first_le last_branch_time
         (List.filter where_active (submission_table db))))))
  else (None, None).

(** Truthiness of an id as [if submission_id:] tests it: [None] and [0]
    are falsy. *)
Definition truthy_id (x : option Z) : bool :=
  match x with
  | Some z => negb (z =? 0)
  | None => false
  end.

Definition choose_submission (now : timestamp) (db : database) : id_pair :=
  let '(commitfest_id, submission_id) := choose_submission_with_new_patch db in
  if truthy_id submission_id then (commitfest_id, submission_id)
  else choose_submission_without_new_patch now db.

(** [update_submission]: the UPDATE of the rows with the given ids.  Every
    row is listed here in the place of the row it comes from; where a later
    query finds it is not fixed, and a statement about the table after the
    UPDATE is made for every order of its rows. *)
Definition update_submission (now : timestamp) (message_id : option string)
  (commit_id : option string) (cf sub : Z) (db : database) : database :=
  Database
    ((fun s =>
        if bool_decide (commitfest_id s = cf /\ submission_id s = sub)
        then Submission (commitfest_id s) (submission_id s) (status s)
               message_id message_id commit_id (last_email_time s) (Some now)
        else s) <$> submission_table db)
    (branch_table db).

(** ** Python values, exceptions and the outside world *)

(** The values that travel in [**kwargs]. *)
Inductive pyval :=
| PyNone
| PyInt (z : Z)
| PyStr (s : string).

#[global] Instance pyval_eq_dec : EqDecision pyval.
Proof. solve_decision. Defined.

(** [str(v)], as the percent-s and format conversions render it. *)
Definition py_str (v : pyval) : string :=
  match v with
  | PyNone => "None"
  | PyInt z => pretty z
  | PyStr s => s
  end.

Definition of_id (x : option Z) : pyval :=
  match x with Some z => PyInt z | None => PyNone end.

(** The fields the template of [make_branch] substitutes. *)
Record banner := Banner {
  banner_commitfest_id : pyval;
  banner_submission_id : pyval;
  banner_name : pyval;
  banner_message_id : pyval;
  banner_authors : pyval;
  banner_base_branch : pyval
}.

(** Every external program the module starts. *)
Inductive command :=
| GitPull                          (* the shell line of update_patchbase_tree *)
| GitRevList                       (* git rev-list HEAD -1 *)
| Tar (file : string)              (* tar xzf file *)
| Unzip (file : string)
| Gunzip (file : string)
| GitCheckout (branch : string)    (* git checkout -q -f -B branch *)
| GitMailinfo (file : string)      (* git mailinfo ./msg ./patch, fed the file *)
| GitApplyIndex (file : string)    (* git apply --index, on the ./patch cut out of the file *)
| GitAm (file : string)            (* git am --patch-format=mbox file *)
| GitCommit (msg : banner)         (* git commit --allow-empty -q -F tmp *)
| GitPush (remote branch : string) (* git push -q -f remote branch *).

Inductive exn :=
| KeyError (key : string)
| TypeError (what : string)
| CalledProcessError (returncode : Z) (cmd : command)
| FetchError (url : string)
| UnicodeDecodeError (cmd : command)  (* the output of cmd is not UTF-8 *)
| OSError (file : string)             (* a file that is not there *).

Inductive outcome (A : Type) :=
| Return (a : A)
| Raise (e : exn).
Arguments Return {A} a.
Arguments Raise {A} e.

(** What the outside world answers during one attempt.  Files are named by
    their base name inside the working directory of the submission. *)
Record env := Env {
  (* cfbot_commitfest_rpc.get_thread_url_for_submission *)
  thread_url_for : pyval -> pyval -> outcome (option string);
  (* cfbot_util.slow_fetch(url).splitlines() *)
  thread_lines : string -> outcome (list string);
  (* cfbot_util.slow_fetch_binary(url) *)
  fetch_binary : string -> outcome string;
  exit_code : command -> Z;
  (* stdout and stderr, which every Popen here merges *)
  tool_output : command -> string;
  (* the names a run of an unpacker leaves in the working directory of the
     submission; the unpackers are started without cwd, in the directory of
     the process, so this is empty unless the paths of the archive lead
     into the working directory *)
  unpacked : command -> list string;
  (* os.path.getsize of the ./msg that git mailinfo wrote for a file, or
     None when ./msg is not there and getsize raises *)
  msg_size : string -> option Z;
  (* the mails of a file, in order: author and message of each, as git am
     reads them *)
  mails : string -> list (string * string);
  (* how many mails of a file git am had committed when it stopped at one
     that does not apply *)
  am_applied : string -> nat;
  clock : timestamp
}.

(** A commit on the branch: one made by [git am] from a mail of a mailbox
    file, with the author and message of that mail, or the one made by
    [make_branch], which also takes whatever raw diffs sit in the index. *)
Inductive commit :=
| PatchCommit (file author message : string)
| BannerCommit (msg : banner) (staged : list string).

(** The commits [git am] makes from mails of a file: one for each. *)
Definition mail_commits (file : string) (ms : list (string * string)) : list commit :=
  (fun m => PatchCommit file m.1 m.2) <$> ms.

(** The three places the module writes to. *)
Inductive journal_entry :=
| Info (line : string)                        (* logging.info, to cfbot.log *)
| Printed (line : string)                     (* print *)
| PatchOutHeader (commit_id : string) (at_time : timestamp)
| PatchOut (text : string)                    (* log.write, to patch.out *).

Record world := World {
  store : database;
  patch_dir : list string;                 (* files of the working directory *)
  branch : list commit;                    (* commits above the baseline, oldest first *)
  index : list string;                     (* raw diffs applied to the index, uncommitted *)
  remote : list (string * list commit);    (* what each push sent, oldest first *)
  ran : list command;                      (* every program started, oldest first *)
  journal : list journal_entry
}.

(** The effect of a finished program on the repository.  Git is taken at its
    word.  [git am] commits the mails of a file one by one: all of them
    when it exits with zero, and those before the mail it stopped at when
    it does not; the module never aborts or resets afterwards, so these
    commits stay on the branch.  [git apply --index] is all or nothing.
    An unpacker leaves its files whether it succeeds or not.  Of the other
    programs only a successful run has an effect: [git checkout -f -B]
    restarts the branch at the baseline, the shell line of
    [update_patchbase_tree] leaves a clean master, [git commit] takes the
    index, [git push] sends the branch. *)
Definition effect (e : env) (c : command) (rc : Z) (w : world) : world :=
  match c with
  | GitAm f =>
      let committed :=
        if rc =? 0 then mails e f else take (am_applied e f) (mails e f) in
      World (store w) (patch_dir w) (branch w ++ mail_commits f committed)
            (index w) (remote w) (ran w) (journal w)
  | Tar _ | Unzip _ | Gunzip _ =>
      World (store w) (list_union (patch_dir w) (unpacked e c)) (branch w) (index w)
            (remote w) (ran w) (journal w)
  | GitRevList | GitMailinfo _ => w
  | GitPull =>
      if negb (rc =? 0) then w else
      World (store w) [] [] [] (remote w) (ran w) (journal w)
  | GitCheckout _ =>
      if negb (rc =? 0) then w else
      World (store w) (patch_dir w) [] [] (remote w) (ran w) (journal w)
  | GitApplyIndex f =>
      if negb (rc =? 0) then w else
      World (store w) (patch_dir w) (branch w) (index w ++ [f]) (remote w) (ran w) (journal w)
  | GitCommit msg =>
      if negb (rc =? 0) then w else
      World (store w) (patch_dir w) (branch w ++ [BannerCommit msg (index w)]) []
            (remote w) (ran w) (journal w)
  | GitPush _ b =>
      if negb (rc =? 0) then w else
      World (store w) (patch_dir w) (branch w) (index w)
            (remote w ++ [(b, branch w)]) (ran w) (journal w)
  end.

(** ** The monad of the pipeline: state and exceptions *)

Definition M (A : Type) : Type := world -> outcome A * world.

Definition ret {A} (a : A) : M A := fun w => (Return a, w).
Definition raise {A} (x : exn) : M A := fun w => (Raise x, w).
Definition bind {A B} (m : M A) (k : A -> M B) : M B :=
  fun w => match m w with
           | (Return a, w') => k a w'
           | (Raise x, w') => (Raise x, w')
           end.

#[global] Instance M_ret : MRet M := @ret.
#[global] Instance M_bind : MBind M := fun A B k m => bind m k.

Definition lift {A} (o : outcome A) : M A := fun w => (o, w).

Definition write (j : journal_entry) : M unit := fun w =>
  (Return tt, World (store w) (patch_dir w) (branch w) (index w) (remote w) (ran w)
                    (journal w ++ [j])).

Definition touch (file : string) : M unit := fun w =>
  (Return tt, World (store w) (list_union (patch_dir w) [file]) (branch w) (index w)
                    (remote w) (ran w) (journal w)).

Definition listdir : M (list string) := fun w => (Return (patch_dir w), w).
Definition read_store : M database := fun w => (Return (store w), w).

(** Starting a program: it is recorded, it has its effect, and its exit
    code comes back ([Popen] and [communicate]). *)
Definition run (e : env) (c : command) : M Z := fun w =>
  let rc := exit_code e c in
  (Return rc,
   effect e c rc (World (store w) (patch_dir w) (branch w) (index w) (remote w)
                        (ran w ++ [c]) (journal w))).

(** [subprocess.check_call] and [check_output]: a non-zero exit code is
    raised as [CalledProcessError]. *)
Definition check_call (e : env) (c : command) : M unit :=
  rc ← run e c;
  if negb (rc =? 0) then raise (CalledProcessError rc c) else mret tt.

(** ** cfbot_patch.py: the patch applier *)

(** [bytes.strip()]: ASCII white space removed at both ends. *)
Fixpoint lstrip (s : list ascii) : list ascii :=
  match s with
  | c :: s' => if Ascii.is_space c then lstrip s' else s
  | [] => []
  end.
Definition strip (s : string) : string :=
  of_chars (reverse (lstrip (reverse (lstrip (chars s))))).

(** [bytes.decode()], which is strict UTF-8: the byte sequences that are
    well formed, with no overlong form, no surrogate and nothing above
    U+10FFFF. *)
Definition byte (c : ascii) : Z := Z.of_N (Ascii.N_of_ascii c).
Definition in_range (lo hi : Z) (c : ascii) : bool :=
  (lo <=? byte c) && (byte c <=? hi).
Definition continuation (c : ascii) : bool := in_range 128 191 c.

(** The second byte that a lead byte of a three-byte or of a four-byte
    sequence admits. *)
Definition second_of_three (b0 b1 : ascii) : bool :=
  if byte b0 =? 224 then in_range 160 191 b1
  else if byte b0 =? 237 then in_range 128 159 b1
  else in_range 225 239 b0 && continuation b1.
Definition second_of_four (b0 b1 : ascii) : bool :=
  if byte b0 =? 240 then in_range 144 191 b1
  else if byte b0 =? 244 then in_range 128 143 b1
  else in_range 241 243 b0 && continuation b1.

Fixpoint utf8_valid (s : list ascii) : bool :=
  match s with
  | [] => true
  | b0 :: s1 =>
      if byte b0 <? 128 then utf8_valid s1
      else match s1 with
           | [] => false
           | b1 :: s2 =>
               if in_range 194 223 b0 then continuation b1 && utf8_valid s2
               else match s2 with
                    | [] => false
                    | b2 :: s3 =>
                        if in_range 224 239 b0
                        then second_of_three b0 b1 && continuation b2 && utf8_valid s3
                        else match s3 with
                             | [] => false
                             | b3 :: s4 =>
                                 second_of_four b0 b1 && continuation b2
                                 && continuation b3 && utf8_valid s4
                             end
                    end
           end
  end.

(** Truthiness of a string: the empty one is falsy. *)
Definition truthy_str (s : string) : bool := negb (bool_decide (s = "")).

(** Truthiness of [thread_url], a string or [None]. *)
Definition truthy_url (u : option string) : bool :=
  match u with Some s => truthy_str s | None => false end.

(** [os.path.basename(urlparse(patch_url).path)] for a URL with a path:
    fragment and query are cut off, then the parameters of the last
    segment, which is what remains after the last slash. *)
Fixpoint cut_at (stop : ascii) (s : list ascii) : list ascii :=
  match s with
  | [] => []
  | c :: s' => if decide (c = stop) then [] else c :: cut_at stop s'
  end.
Fixpoint last_segment (acc s : list ascii) : list ascii :=
  match s with
  | [] => acc
  | c :: s' => if decide (c = "/"%char) then last_segment s' s' else last_segment acc s'
  end.
Definition url_basename (url : string) : string :=
  let path := cut_at "?"%char (cut_at "#"%char (chars url)) in
  of_chars (cut_at ";"%char (last_segment path path)).

(** [glob.glob(os.path.join(patch_dir, '*' + ext))]: the star does not
    match a leading dot. *)
Definition glob_star (ext : string) (files : list string) : list string :=
  List.filter (fun f => endswith f ext && negb (String.prefix "." f)) files.

(** [kwargs[key]] *)
Definition kwarg (kwargs : gmap string pyval) (key : string) : M pyval :=
  match kwargs !! key with
  | Some v => mret v
  | None => raise (KeyError key)
  end.

(** The percent-d conversion takes numbers only. *)
Definition percent_d (v : pyval) : M string :=
  match v with
  | PyInt z => mret (pretty z)
  | _ => raise (TypeError "%d format: a real number is required")
  end.

Definition update_patchbase_tree (e : env) : M unit := check_call e GitPull.

(** [check_output] returns only after exit code zero, when the output of
    [git rev-list] is the commit id, a line of hexadecimal digits, which
    decodes. *)
Definition get_commit_id (e : env) : M string :=
  check_call e GitRevList;; mret (strip (tool_output e GitRevList)).

(** [make_branch]: the template is filled from the keyword arguments, field
    by field from the left, and the commit is made with it. *)
Definition make_branch (e : env) (kwargs : gmap string pyval) : M unit :=
  cf ← kwarg kwargs "commitfest_id";
  sub ← kwarg kwargs "submission_id";
  name ← kwarg kwargs "name";
  message_id ← kwarg kwargs "message_id";
  authors ← kwarg kwargs "authors";
  base_branch ← kwarg kwargs "base_branch";
  check_call e (GitCommit (Banner cf sub name message_id authors base_branch)).

(** The first loop: every attachment is fetched into the working
    directory.  Iterating [None] raises [TypeError]. *)
Fixpoint fetch_all (e : env) (patch_urls : list string) : M (list string) :=
  match patch_urls with
  | [] => mret []
  | patch_url :: rest =>
      let filename := url_basename patch_url in
      touch filename;;
      _ ← lift (fetch_binary e patch_url);
      patches ← fetch_all e rest;
      mret (filename :: patches)
  end.

(** The second loop: archives and compressed files are unpacked. *)
Fixpoint decompress (e : env) (patches : list string) : M unit :=
  match patches with
  | [] => mret tt
  | patch :: rest =>
      (if endswith patch ".tgz" || endswith patch ".tar.gz" || endswith patch ".tar.bz2"
       then check_call e (Tar patch)
       else if endswith patch ".zip" then check_call e (Unzip patch)
       else if endswith patch ".gz" then check_call e (Gunzip patch)
       else mret tt);;
      decompress e rest
  end.

(** [os.path.getsize] of the ./msg of a file. *)
Definition getsize (e : env) (filename : string) : M Z :=
  match msg_size e filename with
  | Some size => mret size
  | None => raise (OSError "./msg")
  end.

(** [stdout.decode()] on the output of a program. *)
Definition decode (e : env) (c : command) : M string :=
  if utf8_valid (chars (tool_output e c)) then mret (tool_output e c)
  else raise (UnicodeDecodeError c).

(** The test of the loop, [not stdout.strip() and msgsize == 0]: the file
    is a raw diff when [git mailinfo] printed nothing but white space and
    wrote an empty message. *)
Definition raw_diff_test (stdout : string) (msgsize : Z) : bool :=
  negb (truthy_str (strip stdout)) && (msgsize =? 0).

(** The program has run when its output is decoded for patch.out and once
    more for the console; [rcode] is read after both.  Writing the decoded
    text is taken to succeed: the file and the console are in a UTF-8
    locale. *)
Definition report (e : env) (c : command) : M unit :=
  text ← decode e c;
  write (PatchOut text);;
  text ← decode e c;
  write (Printed text).

(** The body of the loop over the ordered files; its value is the new
    [rcode]. *)
Definition apply_one (e : env) (filename : string) : M Z :=
  run e (GitMailinfo filename);;
  msgsize ← getsize e filename;
  if raw_diff_test (tool_output e (GitMailinfo filename)) msgsize then
    rc ← run e (GitApplyIndex filename);
    report e (GitApplyIndex filename);;
    mret rc
  else
    rc ← run e (GitAm filename);
    report e (GitAm filename);;
    mret rc.

(** The loop itself, which leaves at the first non-zero [rcode]. *)
Fixpoint apply_all (e : env) (rcode : Z) (patches : list string) : M Z :=
  match patches with
  | [] => mret rcode
  | filename :: rest =>
      rcode' ← apply_one e filename;
      if negb (rcode' =? 0) then mret rcode' else apply_all e rcode' rest
  end.

Definition branch_name (commitfest_id submission_id : pyval) : string :=
  "commitfest/" +:+ py_str commitfest_id +:+ "/" +:+ py_str submission_id.

(** What [process_submission] holds in its locals when it enters the loop
    over the ordered files. *)
Record attempt := Attempt {
  att_commitfest_id : string;
  att_submission_id : string;
  att_commit_id : string;
  att_message_id : option string;
  att_patches : list string;
  att_branch : string
}.

(** [process_submission], up to the header line of patch.out: the thread
    is resolved, the attachments are fetched, unpacked and ordered, and the
    branch is checked out.  [None] is the early return for a submission
    with no thread. *)
Definition start_attempt (e : env) (kwargs : gmap string pyval) : M (option attempt) :=
  commitfest_id ← kwarg kwargs "commitfest_id";
  submission_id ← kwarg kwargs "submission_id";
  thread_url ← lift (thread_url_for e commitfest_id submission_id);
  if negb (truthy_url thread_url) then
    write (Info ("skipping submission " +:+ py_str submission_id +:+ " with no thread"));;
    mret None
  else
    cf ← percent_d commitfest_id;
    sub ← percent_d submission_id;
    write (Info ("processing submission " +:+ cf +:+ ", " +:+ sub));;
    update_patchbase_tree e;;
    commit_id ← get_commit_id e;
    write (Printed ("dir postgresql.cfbot/" +:+ cf +:+ "/" +:+ sub));;
    resolved ← lift (thread_lines e (default "" thread_url));
    let '(message_id, patch_urls) := get_latest_patches_from_thread_url resolved in
    patches ← match patch_urls with
               | Some urls => fetch_all e urls
               | None => raise (TypeError "'NoneType' object is not iterable")
               end;
    decompress e patches;;
    files ← listdir;
    let patches := merge_sort String.le (glob_star ".diff" files ++ glob_star ".patch" files) in
    let branch := branch_name commitfest_id submission_id in
    write (Info ("creating branch " +:+ branch));;
    check_call e (GitCheckout branch);;
    write (PatchOutHeader commit_id (clock e));;
    mret (Some (Attempt cf sub commit_id message_id patches branch)).

(** [process_submission], from the loop over the ordered files to the end:
    the files are applied; on a non-zero [rcode] the failure is printed,
    otherwise the banner commit is made and the branch is pushed.  The
    call of [make_branch] passes [conn] and [patch_dir] by position, the
    keyword arguments of the caller, and [message_id] and [base_branch] by
    name: a keyword argument of the caller with one of these four names is
    a [TypeError]. *)
Definition finish_attempt (e : env) (kwargs : gmap string pyval) (a : attempt)
  : M (option bool) :=
  rcode ← apply_all e 0 (att_patches a);
  if negb (rcode =? 0) then
    write (Printed ("we failed to apply the patches: ... " +:+ att_commitfest_id a
                    +:+ " " +:+ att_submission_id a));;
    mret None
  else
    (if bool_decide (is_Some (kwargs !! "message_id") \/ is_Some (kwargs !! "base_branch"))
     then raise (TypeError "make_branch() got multiple values for keyword argument")
     else if bool_decide (is_Some (kwargs !! "conn") \/ is_Some (kwargs !! "patch_dir"))
     then raise (TypeError "make_branch() got multiple values for argument")
     else make_branch e (<["base_branch" := PyStr (att_commit_id a)]>
                          (<["message_id" := from_option PyStr PyNone (att_message_id a)]> kwargs)));;
    (if truthy_str GIT_REMOTE_NAME then
       write (Info ("pushing branch " +:+ att_branch a));;
       check_call e (GitPush GIT_REMOTE_NAME (att_branch a))
     else mret tt);;
    mret (Some true).

(** [process_submission(conn, **kwargs)].  Its value is [True] after a
    push and [None] on the other returns.  The cursor it opens on the
    connection is never used: nothing in the function reads or writes the
    store. *)
Definition process_submission (e : env) (kwargs : gmap string pyval) : M (option bool) :=
  a ← start_attempt e kwargs;
  match a with
  | None => mret None
  | Some a => finish_attempt e kwargs a
  end.

(** [maybe_process_one]: one tick of the scheduler. *)
Definition maybe_process_one (e : env) : M unit :=
  db ← read_store;
  if negb (need_to_limit_rate db) then
    let '(commitfest_id, submission_id) := choose_submission (clock e) db in
    if truthy_id submission_id then
      process_submission e
        (<["submission_id" := of_id submission_id]>
           (<["commitfest_id" := of_id commitfest_id]> ∅));;
      mret tt
    else mret tt
  else mret tt.

(** ** cfbot_commitfest_rpc.py: the other routines *)

(** How a routine of the module ends: with a value, with the [Exception] it
    raises itself, or with the [TypeError] of an operation on [None]. *)
Inductive rpc_result (A : Type) :=
| Got (a : A)
| RpcException (message : string)
| RpcTypeError.
Arguments Got {A} a.
Arguments RpcException {A} message.
Arguments RpcTypeError {A}.

(** The longest run of characters of a class, and the rest of the input. *)
Fixpoint span (p : ascii -> bool) (s : list ascii) : list ascii * list ascii :=
  match s with
  | [] => ([], [])
  | c :: s' =>
      if p c then let '(run, rest) := span p s' in (c :: run, rest)
      else ([], s)
  end.

(** The class [[0-9]]. *)
Definition is_digit (c : ascii) : bool :=
  if Ascii.is_nat c is Some _ then true else false.

(** [int(s)] on a run of decimal digits. *)
Definition int_of_digits (s : list ascii) : Z :=
  fold_left (fun acc c => 10 * acc + Z.of_nat (default 0%nat (Ascii.is_nat c))) s 0.

(** An anchored match of the pattern of [get_current_commitfest_id],
      <a href=Q/([0-9]+)/Q>[0-9]+-[0-9]+</a> \((Open|In Progress) SPACE
    returning groups 1 and 2.  Every run of digits is followed by a
    character that is no digit, so each is the longest run. *)
Definition current_commitfest_match_here (s : list ascii) : option (string * string) :=
  rest ← strip_literal (chars "<a href=" ++ [dq] ++ chars "/") s;
  let '(id, rest) := span is_digit rest in
  if decide (id = []) then None else
  rest ← strip_literal (chars "/" ++ [dq] ++ chars ">") rest;
  let '(first, rest) := span is_digit rest in
  if decide (first = []) then None else
  rest ← strip_literal (chars "-") rest;
  let '(second, rest) := span is_digit rest in
  if decide (second = []) then None else
  rest ← strip_literal (chars "</a> (") rest;
  if strip_literal (chars "Open ") rest is Some _ then Some (of_chars id, "Open")
  else if strip_literal (chars "In Progress ") rest is Some _
       then Some (of_chars id, "In Progress")
       else None.

(** [get_current_commitfest_id], on the lines of the front page: the id of
    the last line that matches, or the exception when none does. *)
Definition get_current_commitfest_id (lines : list string) : rpc_result Z :=
  let result :=
    fold_left (fun result line =>
                 match search current_commitfest_match_here (chars line) with
                 | Some (commitfest_id, state) => Some (int_of_digits (chars commitfest_id))
                 | None => result
                 end) lines None in
  match result with
  | None => RpcException "Could not determine the current Commitfest ID"
  | Some id => Got id
  end.

(** The dot of a pattern: any one character but the newline. *)
Definition any_char (s : list ascii) : option (list ascii) :=
  match s with
  | c :: s' => if decide (c = "010"%char) then None else Some s'
  | [] => None
  end.

(** An anchored match of the first pattern of
    [get_thread_url_for_submission],
      Latest at <a href=Qhttps://www.postgresql.org/message-id/([^Q]+)Q>(2[^<]+)
    returning the candidate [(group 2, group 1)]: the time, then the
    message id.  The two dots of the host name are not escaped in the
    pattern, so each stands for any character. *)
Definition latest_at_match_here (s : list ascii) : option (string * string) :=
  rest ← strip_literal (chars "Latest at <a href=" ++ [dq] ++ chars "https://www") s;
  rest ← any_char rest;
  rest ← strip_literal (chars "postgresql") rest;
  rest ← any_char rest;
  rest ← strip_literal (chars "org/message-id/") rest;
  let '(id, tail) := span_unquoted rest in
  if decide (id = []) then None else
  rest' ← strip_literal (dq :: chars ">2") tail;
  let '(when, _) := span (fun c => negb (bool_decide (c = "<"%char))) rest' in
  if decide (when = []) then None
  else Some (of_chars ("2"%char :: when), of_chars id).

(** The dot-star of a pattern followed by a literal: the literal somewhere
    ahead, with no newline before it. *)
Fixpoint any_then (lit s : list ascii) : bool :=
  if strip_literal lit s is Some _ then true else
  match s with
  | [] => false
  | c :: s' => if decide (c = "010"%char) then false else any_then lit s'
  end.

(** An anchored match of the second pattern,
      Latest attachment .* <button type=QbuttonQ SPACE *)
Definition latest_attachment_match_here (s : list ascii) : option unit :=
  rest ← strip_literal (chars "Latest attachment ") s;
  if any_then (chars " <button type=" ++ [dq] ++ chars "button" ++ [dq] ++ chars " ") rest
  then Some tt else None.

(** The order of Python on tuples of two strings: by the first component,
    then by the second. *)
Definition tuple_le (a b : string * string) : Prop :=
  String.le a.1 b.1 /\ (a.1 = b.1 -> String.le a.2 b.2).

#[global] Instance tuple_le_dec : RelDecision tuple_le.
Proof. intros a b. unfold tuple_le. apply _. Defined.

(** The locals of the loop: the candidates appended so far, and the
    candidate of the last thread seen ([None] before any). *)
Definition thread_scan : Type :=
  list (option (string * string)) * option (string * string).

Definition thread_scan_line (st : thread_scan) (line : string) : thread_scan :=
  let '(candidates, candidate) := st in
  let candidate :=
    match search latest_at_match_here (chars line) with
    | Some c => Some c
    | None => candidate
    end in
  match search latest_attachment_match_here (chars line) with
  | Some _ => (candidates ++ [candidate], candidate)
  | None => (candidates, candidate)
  end.

Definition thread_flat_prefix : string := "https://www.postgresql.org/message-id/flat/".

(** [get_thread_url_for_submission], on the lines of the page of the
    submission.  A candidate that is [None] cannot be compared by
    [candidates.sort()] nor indexed by [candidates[-1][1]]: either raises
    [TypeError]. *)
Definition get_thread_url_for_submission (lines : list string)
  : rpc_result (option string) :=
  let candidates := (fold_left thread_scan_line lines ([], None)).1 in
  if decide (candidates = []) then Got None
  else match mapM id candidates with
       | None => RpcTypeError
       | Some tuples =>
           match last (merge_sort tuple_le tuples) with
           | Some newest => Got (Some (thread_flat_prefix +:+ newest.2))
           | None => RpcTypeError
           end
       end.

(** An anchored match of the cell pattern of [parse_authors]: the tag td,
    a group of characters other than the opening angle bracket, as many as
    there are, and the closing tag.  It returns the group. *)
Definition td_match_here (s : list ascii) : option (list ascii) :=
  rest ← strip_literal (chars "<td>") s;
  let '(cell, tail) := span (fun c => negb (bool_decide (c = "<"%char))) rest in
  _ ← strip_literal (chars "</td>") tail;
  Some cell.

(** [s.split(', ')] *)
Fixpoint split_comma_space (cur s : list ascii) : list (list ascii) :=
  match s with
  | [] => [reverse cur]
  | c :: s' =>
      match s' with
      | c' :: s'' =>
          if decide (c = ","%char /\ c' = " "%char)
          then reverse cur :: split_comma_space [] s''
          else split_comma_space (c :: cur) s'
      | [] => split_comma_space (c :: cur) s'
      end
  end.

(** The tail of [AUTHOR_RE] after its first group: spaces, an opening
    parenthesis, group 2 up to the next closing one. *)
Definition author_tail_here (s : list ascii) : option (list ascii) :=
  let '(spaces, rest) := span (fun c => bool_decide (c = " "%char)) s in
  if decide (spaces = []) then None else
  rest ← strip_literal (chars "(") rest;
  let '(user, tail) := span (fun c => negb (bool_decide (c = ")"%char))) rest in
  _ ← strip_literal (chars ")") tail;
  Some user.

(** An anchored match of [AUTHOR_RE]: a first group of any characters, as
    long as it can be within a line, then the tail.  It returns both
    groups. *)
Fixpoint author_match_here (s : list ascii) : option (list ascii * list ascii) :=
  match s with
  | [] => None
  | c :: s' =>
      let shorter := (fun user => ([], user)) <$> author_tail_here s in
      if decide (c = "010"%char) then shorter
      else match author_match_here s' with
           | Some (name, user) => Some (c :: name, user)
           | None => shorter
           end
  end.

(** [parse_authors]: the dict from user name to display name. *)
Definition parse_authors (line : string) : gmap string string :=
  match search td_match_here (chars line) with
  | None => ∅
  | Some cell =>
      fold_left (fun ret au =>
                   match search author_match_here au with
                   | Some (name, user) => <[of_chars user := of_chars name]> ret
                   | None => ret
                   end)
                (split_comma_space [] cell) ∅
  end.

(** ** The words of the specification *)

(** A status in the active set. *)
Definition active (s : submission) : Prop :=
  status s ∈ ["Ready for Committer"; "Needs review"; "Waiting on Author"].

(** A stale submission that may be scheduled: its [last_message_id] is not
    null and differs from [last_branch_message_id], and it is active. *)
Definition stale (s : submission) : Prop :=
  last_message_id s ≠ None
  /\ last_message_id s ≠ last_branch_message_id s
  /\ active s.

(** An active submission with a non-null message. *)
Definition rebuildable (s : submission) : Prop :=
  last_message_id s ≠ None /\ active s.

(** The same rows in another order of scan.  SQL fixes no order for the rows
    of a table, and an UPDATE writes a new version of a row where it finds
    room. *)
Definition same_rows (db db' : database) : Prop :=
  submission_table db' ≡ₚ submission_table db
  /\ branch_table db' ≡ₚ branch_table db.

(** The ids of a row, as a chooser returns them. *)
Definition ids_of (s : submission) : id_pair :=
  (Some (commitfest_id s), Some (submission_id s)).

(** A rebuildable submission whose branch was built in the trailing
    hour. *)
Definition rebuilt_recently (now : timestamp) (s : submission) : Prop :=
  rebuildable s
  /\ match last_branch_time s with
     | Some t => now - one_hour < t
     | None => False
     end.

#[global] Instance active_dec s : Decision (active s).
Proof. unfold active. apply _. Defined.
#[global] Instance stale_dec s : Decision (stale s).
Proof. unfold stale. apply _. Defined.
#[global] Instance rebuildable_dec s : Decision (rebuildable s).
Proof. unfold rebuildable. apply _. Defined.
#[global] Instance rebuilt_recently_dec now s : Decision (rebuilt_recently now s).
Proof. unfold rebuilt_recently. destruct (last_branch_time s); apply _. Defined.

(** The number of branches in flight. *)
Definition in_flight (db : database) : Z :=
  Z.of_nat (length (filter (fun b => branch_status b = "testing") (branch_table db))).

(** The number of rebuildable submissions, and of those rebuilt in the
    trailing hour. *)
Definition rebuildable_count (db : database) : Z :=
  Z.of_nat (length (filter rebuildable (submission_table db))).
Definition rebuilt_last_hour (now : timestamp) (db : database) : Z :=
  Z.of_nat (length (filter (rebuilt_recently now) (submission_table db))).

(** A file from which extracting the headers of a commit message yields
    nothing, and whose extracted message has size zero. *)
Definition headerless (e : env) (filename : string) : Prop :=
  strip (tool_output e (GitMailinfo filename)) = "" /\ msg_size e filename = Some 0.

#[global] Instance headerless_dec e filename : Decision (headerless e filename).
Proof. unfold headerless. apply _. Defined.

Definition is_raw_diff (e : env) (filename : string) : bool :=
  bool_decide (headerless e filename).

(** The program that applies a file, its exit code and its output. *)
Definition apply_command (e : env) (filename : string) : command :=
  if is_raw_diff e filename then GitApplyIndex filename else GitAm filename.
Definition apply_exit (e : env) (filename : string) : Z :=
  exit_code e (apply_command e filename).
Definition apply_output (e : env) (filename : string) : string :=
  tool_output e (apply_command e filename).

(** A file whose apply step can be reported: its ./msg is there to be
    measured, and the output of the program that applies it is UTF-8. *)
Definition readable (e : env) (filename : string) : Prop :=
  is_Some (msg_size e filename)
  /\ utf8_valid (chars (apply_output e filename)) = true.

#[global] Instance readable_dec e filename : Decision (readable e filename).
Proof. unfold readable. apply _. Defined.

(** A file that applies, and whose apply step can be reported. *)
Definition applies (e : env) (filename : string) : Prop :=
  readable e filename /\ apply_exit e filename = 0.

#[global] Instance applies_dec e filename : Decision (applies e filename).
Proof. unfold applies. apply _. Defined.

(** The commits a file leaves on the branch when it applies: none for a
    raw diff, one for each mail of a mailbox file; and when it does not
    apply: those of the mails before the one [git am] stopped at. *)
Definition file_commits (e : env) (filename : string) : list commit :=
  if is_raw_diff e filename then []
  else mail_commits filename (mails e filename).
Definition partial_commits (e : env) (filename : string) : list commit :=
  if is_raw_diff e filename then []
  else mail_commits filename (take (am_applied e filename) (mails e filename)).

(** The files of a list that are raw diffs. *)
Definition raw_diffs (e : env) (files : list string) : list string :=
  List.filter (is_raw_diff e) files.

(** How the body of the loop ends for a file, when it is reached. *)
Definition apply_outcome (e : env) (filename : string) : outcome Z :=
  match msg_size e filename with
  | None => Raise (OSError "./msg")
  | Some _ =>
      if utf8_valid (chars (apply_output e filename))
      then Return (apply_exit e filename)
      else Raise (UnicodeDecodeError (apply_command e filename))
  end.

(** The programs started, and the lines written, to apply a list of files. *)
Definition applied_commands (e : env) (files : list string) : list command :=
  flat_map (fun f => [GitMailinfo f; apply_command e f]) files.
Definition applied_output (e : env) (files : list string) : list journal_entry :=
  flat_map (fun f => [PatchOut (apply_output e f); Printed (apply_output e f)]) files.

(** A program that neither commits the banner nor pushes. *)
Definition publishes (c : command) : bool :=
  match c with
  | GitCommit _ | GitPush _ _ => true
  | _ => false
  end.

(** The world after the files of a list have all been applied cleanly: a
    commit for each mail of each mailbox file, the raw diffs in the
    index. *)
Definition applied (e : env) (files : list string) (w : world) : world :=
  World (store w) (patch_dir w)
        (branch w ++ flat_map (file_commits e) files)
        (index w ++ raw_diffs e files)
        (remote w)
        (ran w ++ applied_commands e files)
        (journal w ++ applied_output e files).

(** The banner that [make_branch] writes for an attempt. *)
Definition banner_of (kwargs : gmap string pyval) (a : attempt) : banner :=
  Banner (default PyNone (kwargs !! "commitfest_id"))
         (default PyNone (kwargs !! "submission_id"))
         (default PyNone (kwargs !! "name"))
         (from_option PyStr PyNone (att_message_id a))
         (default PyNone (kwargs !! "authors"))
         (PyStr (att_commit_id a)).

(** The world after a file has failed to apply. *)
Definition rejected (e : env) (filename : string) (w : world) : world :=
  World (store w) (patch_dir w) (branch w ++ partial_commits e filename)
        (index w) (remote w)
        (ran w ++ applied_commands e [filename])
        (journal w ++ applied_output e [filename]).

(** ** Scenarios *)

(** Lines of a thread page, as the archive writes them. *)
Definition header_line (target id : string) : string :=
  "<td><a href=" +:+ String dq ("/message-id/" +:+ target) +:+ String dq (">" +:+ id +:+ "</a></td>").
Definition attachment_line (path : string) : string :=
  "<a href=" +:+ String dq ("/message-id/attachment/" +:+ path) +:+ String dq ">attachment</a>".

(** A thread whose newest message carries three mailbox patches. *)
Definition patch_page : list string :=
  [ "<h1>Re: a thing</h1>";
    header_line "CA%2Bold%40example.org" "CA+old@example.org";
    attachment_line "100/v1-0001-a.patch";
    header_line "CA%2Bnew%40example.org" "CA+new@example.org";
    attachment_line "201/v2-0002-b.patch";
    attachment_line "200/v2-0001-a.patch";
    attachment_line "202/v2-0003-c.patch";
    header_line "CA%2Breply%40example.org" "CA+reply@example.org";
    "<p>looks good to me</p>" ].

(** A thread whose newest message carries a tarball and a patch, and the
    same thread with the tarball alone. *)
Definition mixed_page : list string :=
  [ header_line "CA%2Bmix%40example.org" "CA+mix@example.org";
    attachment_line "300/v3.tar.gz";
    attachment_line "301/v3-fixup.patch";
    "<p>see attached</p>" ].
Definition tarball_page : list string :=
  [ header_line "CA%2Bmix%40example.org" "CA+mix@example.org";
    attachment_line "300/v3.tar.gz";
    "<p>see attached</p>" ].

(** The thread with the tarball next to a file that is no patch. *)
Definition tarball_note_page : list string :=
  [ header_line "CA%2Bmix%40example.org" "CA+mix@example.org";
    attachment_line "300/v3.tar.gz";
    attachment_line "302/benchmark.txt";
    "<p>see attached</p>" ].

(** A line that links the attachment which is always skipped. *)
Definition jabiru_line : string :=
  attachment_line "400/jabiru_2022-03-28_20-25-16.tar.gz".

(** What the programs print.  A file ending in .diff is a bare diff, on
    which [git mailinfo] prints nothing and writes no message. *)
Definition plain_output (c : command) : string :=
  match c with
  | GitRevList => "0a1b2c3d" +:+ String "010" ""
  | GitMailinfo f => if endswith f ".diff" then "" else "Author: A. Hacker"
  | GitAm f => "Applying: " +:+ f
  | _ => ""
  end.

(** An outside world: the thread of every submission, the page behind it,
    the exit code and the output of every program, the mails of every
    file, and how many of them [git am] commits before it fails. *)
Definition scenario_of (thread : option string) (page : list string)
  (rc : command -> Z) (output : command -> string)
  (mails : string -> list (string * string)) (am_applied : string -> nat) : env :=
  Env (fun _ _ => Return thread)
      (fun _ => Return page)
      (fun _ => Return "")
      rc
      output
      (fun _ => [])
      (fun f => Some (if endswith f ".diff" then 0 else 120))
      mails
      am_applied
      (24 * one_hour).

(** The same with every mailbox file holding one mail. *)
Definition scenario (thread : option string) (page : list string)
  (rc : command -> Z) : env :=
  scenario_of thread page rc plain_output
              (fun f => [("A. Hacker", "Fix " +:+ f)]) (fun _ => 0%nat).

Definition thread_of_patch : option string :=
  Some "https://www.postgresql.org/message-id/flat/CA%2Bold%40example.org".

(** Everything succeeds. *)
Definition env_clean : env := scenario thread_of_patch patch_page (fun _ => 0).

(** The second patch does not apply. *)
Definition env_reject : env :=
  scenario thread_of_patch patch_page
    (fun c => match c with GitAm "v2-0002-b.patch" => 1 | _ => 0 end).

(** The lone tarball does not unpack. *)
Definition env_tarball : env :=
  scenario thread_of_patch tarball_page
    (fun c => match c with Tar "v3.tar.gz" => 2 | _ => 0 end).

(** The second patch is a series of two mails, of which the second does
    not apply. *)
Definition env_series_reject : env :=
  scenario_of thread_of_patch patch_page
    (fun c => match c with GitAm "v2-0002-b.patch" => 128 | _ => 0 end)
    plain_output
    (fun f => if bool_decide (f = "v2-0002-b.patch")
              then [("A. Hacker", "Part one"); ("A. Hacker", "Part two")]
              else [("A. Hacker", "Fix " +:+ f)])
    (fun _ => 1%nat).

(** Every patch applies, the second being a series of two mails. *)
Definition env_series : env :=
  scenario_of thread_of_patch patch_page (fun _ => 0) plain_output
    (fun f => if bool_decide (f = "v2-0002-b.patch")
              then [("A. Hacker", "Part one"); ("A. Hacker", "Part two")]
              else [("A. Hacker", "Fix " +:+ f)])
    (fun _ => 0%nat).

(** The second patch does not apply, and [git am] names a file in
    Latin-1: the byte 233 alone is not UTF-8. *)
Definition env_latin1 : env :=
  scenario_of thread_of_patch patch_page
    (fun c => match c with GitAm "v2-0002-b.patch" => 128 | _ => 0 end)
    (fun c => match c with
              | GitAm "v2-0002-b.patch" => "error: caf" +:+ String "233" ".c: does not apply"
              | _ => plain_output c
              end)
    (fun f => [("A. Hacker", "Fix " +:+ f)]) (fun _ => 0%nat).

(** The remote refuses the push. *)
Definition env_push_refused : env :=
  scenario thread_of_patch patch_page
    (fun c => match c with GitPush _ _ => 1 | _ => 0 end).

(** The submission has no thread. *)
Definition env_no_thread : env := scenario None [] (fun _ => 0).

(** A store with one stale submission and no branch in flight, and the
    same store with a build in flight. *)
Definition stale_row : submission :=
  Submission 38 3633 "Needs review" (Some "CA+new@example.org")
             (Some "CA+old@example.org") (Some "ffff0000") (Some 5000) (Some 6000).
Definition older_stale_row : submission :=
  Submission 38 3500 "Waiting on Author" (Some "CA+x@example.org") None None
             (Some 4000) None.
Definition fresh_row : submission :=
  Submission 38 3700 "Ready for Committer" (Some "CA+y@example.org")
             (Some "CA+y@example.org") (Some "ffff0000") (Some 3000) (Some 7000).

Definition world_of (db : database) : world := World db [] [] [] [] [] [].

Definition idle_world : world := world_of (Database [stale_row] []).
Definition busy_world : world :=
  world_of (Database [stale_row; older_stale_row] [BranchRow "failed"; BranchRow "testing"]).

(** An attempt on a single bare diff. *)
Definition raw_attempt : attempt :=
  Attempt "38" "3633" "0a1b2c3d" (Some "CA+new@example.org") ["fix.diff"]
          "commitfest/38/3633".

(** The keyword arguments of [maybe_process_one], and a call that also
    names the submission and its authors. *)
Definition kwargs_ids : gmap string pyval :=
  <["submission_id" := PyInt 3633]> (<["commitfest_id" := PyInt 38]> ∅).
Definition kwargs_named : gmap string pyval :=
  <["authors" := PyStr "A. Hacker"]> (<["name" := PyStr "Fix a thing"]> kwargs_ids).

(** A store whose only stale submission has [submission_id] zero, next to
    a never-built submission whose branch is up to date. *)
Definition zero_row : submission :=
  Submission 38 0 "Needs review" (Some "m2") (Some "m1") (Some "c1")
             (Some 1000) (Some 2000).
Definition unbuilt_row : submission :=
  Submission 38 7 "Needs review" (Some "m7") (Some "m7") None (Some 3000) None.
Definition store_with_id_zero : database := Database [zero_row; unbuilt_row] [].

(** ** Invariants of the pipeline *)

(** What a line does when its attachment is not accepted. *)
Definition scan_header_only (st : scan_state) (line : string) : scan_state :=
  match message_id_of_line line with
  | Some m => ScanState (selected_message_attachments st) (selected_message_id st) [] (Some m)
  | None => st
  end.

(** The accepted attachments of a run of lines, in the order of the
    page. *)
Definition accepted_attachments (lines : list string) : list string :=
  omap accepted_attachment lines.

(** [keeps I m]: the invariant [I] survives [m], however [m] ends. *)
Definition keeps {A} (I : world -> Prop) (m : M A) : Prop :=
  forall w, I w -> I (m w).2.

(** [returns m Q]: when [m] returns, [Q] holds of its value and world. *)
Definition returns {A} (m : M A) (Q : A -> world -> Prop) : Prop :=
  forall w, match m w with (Return a, w') => Q a w' | (Raise _, _) => True end.

(** The store is [db]. *)
Definition same_store (db : database) (w : world) : Prop := store w = db.

(** Since [w0], nothing was pushed and no program that publishes was
    started. *)
Definition unpublished (w0 w : world) : Prop :=
  remote w = remote w0
  /\ exists cmds, ran w = ran w0 ++ cmds /\ Forall (fun c => publishes c = false) cmds.


(** A submission that was committed while a new patch was waiting. *)
Definition committed_row : submission :=
  Submission 38 3900 "Committed" (Some "CA+c2@example.org")
             (Some "CA+c1@example.org") (Some "ffff0000") (Some 1000) (Some 100).

(** The newest message mixes a tarball with a patch. *)
Definition env_mixed : env := scenario thread_of_patch mixed_page (fun _ => 0).

(** The fields of the template of [make_branch], in the order in which
    [format] first meets them. *)
Definition banner_fields : list string :=
  ["commitfest_id"; "submission_id"; "name"; "message_id"; "authors"; "base_branch"].

(** A name that the second loop of [process_submission] leaves alone. *)
Definition plain_file (patch : string) : Prop :=
  endswith patch ".tgz" = false /\ endswith patch ".tar.bz2" = false
  /\ endswith patch ".zip" = false /\ endswith patch ".gz" = false.

(** The names that [glob] finds for the two patterns of
    [process_submission]. *)
Definition globbed (f : string) : Prop :=
  (endswith f ".diff" = true \/ endswith f ".patch" = true)
  /\ String.prefix "." f = false.

(** A thread in which nobody attached anything that counts. *)
Definition chat_page : list string :=
  [ header_line "CA%2Bq%40example.org" "CA+q@example.org";
    "<p>what do you think?</p>";
    jabiru_line;
    attachment_line "500/notes.txt" ].

(** The characters that [urlparse] treats specially in a URL, or drops
    from it, and that end the last segment of its path. *)
Definition url_plain (s : string) : Prop :=
  Forall (fun c => c ∉ ["#"; "?"; "009"; "010"; "013"]%char) (chars s).
Definition segment_plain (s : string) : Prop :=
  url_plain s /\ Forall (fun c => c ∉ ["/"; ";"]%char) (chars s).

(** The shape of an attachment URL: the site, the fixed path, and a name
    free of double quotes ending in a dot and one of the seven
    suffixes. *)
Definition attachment_url (u : string) : Prop :=
  exists body, u = "https://www.postgresql.org" +:+ attachment_prefix +:+ of_chars body
    /\ (dq ∉ body)
    /\ exists alt, alt ∈ attachment_suffixes
         /\ endswith (of_chars body) ("." +:+ alt) = true.

(** The matches of the pattern of [get_current_commitfest_id] on the
    lines of a page, in order. *)
Definition current_commitfest_matches (lines : list string) : list (string * string) :=
  omap (fun line => search current_commitfest_match_here (chars line)) lines.

(** The candidates that [get_thread_url_for_submission] has collected when
    its loop ends. *)
Definition thread_candidates (lines : list string) : list (option (string * string)) :=
  (fold_left thread_scan_line lines ([], None)).1.

(** Lines of the page of a submission: the latest mail of a thread and the
    marker of its latest attachment. *)
Definition latest_at_line (id time : string) : string :=
  "Latest at <a href=" +:+ String dq ("https://www.postgresql.org/message-id/" +:+ id)
  +:+ String dq (">" +:+ time +:+ "</a>").
Definition latest_attachment_line : string :=
  "Latest attachment (<a href=" +:+ String dq "x" +:+ String dq
    (">v2.patch</a>) at 2022-03-28 <button type=" +:+ String dq "button"
     +:+ String dq " class=") .

(** A submission with two threads that carry attachments and one that
    carries none. *)
Definition submission_page : list string :=
  [ latest_at_line "CA%2Ba%40example.org" "2022-01-05 10:00:00";
    latest_attachment_line;
    latest_at_line "CA%2Bb%40example.org" "2022-03-28 20:25:16";
    latest_attachment_line;
    latest_at_line "CA%2Bc%40example.org" "2022-04-01 09:00:00" ].

(** The cell of the authors as the commitfest application writes it: each
    author as the display name and the user name in parentheses, the
    authors separated by a comma and a space. *)
Definition render_author (a : string * string) : list ascii :=
  chars a.1 ++ chars " (" ++ chars a.2 ++ chars ")".
Fixpoint render_authors (authors : list (string * string)) : list ascii :=
  match authors with
  | [] => []
  | [a] => render_author a
  | a :: rest => render_author a ++ chars ", " ++ render_authors rest
  end.
Definition authors_line (indent : string) (authors : list (string * string))
  (rest : string) : string :=
  indent +:+ "<td>" +:+ of_chars (render_authors authors) +:+ "</td>" +:+ rest.

(** A display name and a user name that the cell can carry unharmed. *)
Definition plain_name (name : string) : Prop :=
  Forall (fun c => c ∉ ["<"; ","; "010"]%char) (chars name).
Definition plain_user (user : string) : Prop :=
  Forall (fun c => c ∉ ["<"; ","; "("; ")"]%char) (chars user).

(** The dict that the loop of [parse_authors] builds from a list of
    authors: a later author replaces an earlier one of the same user
    name. *)
Definition authors_dict (authors : list (string * string)) : gmap string string :=
  fold_left (fun ret a => <[a.2 := a.1]> ret) authors ∅.

(** An author whose display name and user name both render plainly. *)
Definition plain_author (a : string * string) : Prop :=
  plain_name a.1 /\ plain_user a.2.

(** * Properties *)

(** ** Queries *)

Lemma where_new_patch_stale s : where_new_patch s = true <-> stale s.
Proof.
  unfold where_new_patch, is_distinct_from, active_status, stale, active.
  rewrite !andb_true_iff, !bool_decide_eq_true. tauto.
Qed.

Lemma where_active_rebuildable s : where_active s = true <-> rebuildable s.
Proof.
  unfold where_active, active_status, rebuildable, active.
  rewrite andb_true_iff, !bool_decide_eq_true. tauto.
Qed.

#[global] Instance nulls_last_le_total : Total nulls_last_le.
Proof. intros [x|] [y|]; simpl; try tauto. lia. Qed.

#[global] Instance nulls_last_le_trans : Transitive nulls_last_le.
Proof. intros [x|] [y|] [z|]; simpl; try tauto. lia. Qed.

#[global] Instance nulls_first_le_total : Total nulls_first_le.
Proof. intros [x|] [y|]; simpl; try tauto. lia. Qed.

#[global] Instance nulls_first_le_trans : Transitive nulls_first_le.
Proof. intros [x|] [y|] [z|]; simpl; try tauto. lia. Qed.

Section first_row.
Context {A K : Type} (R : relation K) `{!RelDecision R, !Transitive R, !Total R}.
Context (key : A -> K).

#[local] Instance by_key_total : Total (by_key R key).
Proof. intros x y. apply (total R). Qed.

#[local] Instance by_key_trans : Transitive (by_key R key).
Proof. intros x y z. unfold by_key. apply transitivity. Qed.

(** The first row of a sorted result is a row of the input, and no row of
    the input sorts strictly before it. *)
Lemma order_by_first rows x :
  head (order_by R key rows) = Some x ->
  x ∈ rows /\ forall y, y ∈ rows -> R (key x) (key y).
Proof.
  unfold order_by. intros Hhd.
  pose proof (StronglySorted_merge_sort (by_key R key) rows) as Hsorted.
  pose proof (merge_sort_Permutation (by_key R key) rows) as Hperm.
  destruct (merge_sort (by_key R key) rows) as [|x' sorted]; simplify_eq/=.
  split.
  - rewrite <- Hperm. left.
  - intros y Hy. rewrite <- Hperm in Hy.
    apply StronglySorted_inv in Hsorted as [_ Hall].
    apply elem_of_cons in Hy as [->|Hy].
    + destruct (total R (key x) (key x)); assumption.
    + rewrite Forall_forall in Hall. apply Hall, Hy.
Qed.

(** A non-empty input has a first row. *)
Lemma order_by_some rows y :
  y ∈ rows -> is_Some (head (order_by R key rows)).
Proof.
  unfold order_by. intros Hy.
  rewrite <- (merge_sort_Permutation (by_key R key) rows) in Hy.
  destruct (merge_sort (by_key R key) rows); [by apply elem_of_nil in Hy|].
  by eexists.
Qed.
End first_row.

Lemma fetchone_limit_select rows :
  row_or_none (fetchone (limit 1 (select_ids rows)))
  = from_option ids_of (None, None) (head rows).
Proof. by destruct rows. Qed.

(** A WHERE clause keeps the rows of which its condition holds. *)
Lemma where_filter {A} (p : A -> bool) (P : A -> Prop) `{!forall x, Decision (P x)} rows :
  (forall x, p x = true <-> P x) ->
  List.filter p rows = filter P rows.
Proof.
  intros Hp. induction rows as [|x rows IH]; [done|].
  simpl. rewrite filter_cons, IH.
  destruct (p x) eqn:Hx; case_decide as HP; try done.
  - by apply Hp in Hx.
  - apply Hp in HP. congruence.
Qed.

Lemma elem_of_where {A} (p : A -> bool) rows x :
  x ∈ List.filter p rows <-> x ∈ rows /\ p x = true.
Proof. rewrite !list_elem_of_In. apply filter_In. Qed.

(** The chooser of new patches, read off the query. *)
Lemma choose_new_patch_some db s0 :
  s0 ∈ submission_table db -> stale s0 ->
  exists s, s ∈ submission_table db /\ stale s
    /\ choose_submission_with_new_patch db = ids_of s
    /\ forall s', s' ∈ submission_table db -> stale s' ->
         nulls_last_le (last_email_time s) (last_email_time s').
Proof.
  intros Hin Hstale. unfold choose_submission_with_new_patch.
  rewrite fetchone_limit_select.
  set (rows := List.filter where_new_patch (submission_table db)).
  assert (s0 ∈ rows) as Hrow.
  { apply elem_of_where. split; [done|]. by apply where_new_patch_stale. }
  destruct (order_by_some nulls_last_le last_email_time rows s0 Hrow) as [s Hs].
  rewrite Hs. simpl.
  apply order_by_first in Hs as [Hs Hmin]; [|apply _..].
  apply elem_of_where in Hs as [Hs Hw]. apply where_new_patch_stale in Hw.
  exists s. split; [done|]. split; [done|]. split; [done|].
  intros s' Hs' Hstale'. apply Hmin. apply elem_of_where.
  split; [done|]. by apply where_new_patch_stale.
Qed.

Lemma choose_new_patch_none db :
  (forall s, s ∈ submission_table db -> ~ stale s) ->
  choose_submission_with_new_patch db = (None, None).
Proof.
  intros Hnone. unfold choose_submission_with_new_patch.
  rewrite fetchone_limit_select.
  destruct (head _) as [s|] eqn:Hs; [|done].
  apply order_by_first in Hs as [Hs _]; [|apply _..].
  apply elem_of_where in Hs as [Hs Hw]. apply where_new_patch_stale in Hw.
  by destruct (Hnone s Hs).
Qed.

(** ** C1 *)

(** C1. Whenever some submission of the store is stale (its
    [last_message_id] is not null and differs from
    [last_branch_message_id]) and active, [choose_submission_with_new_patch]
    returns the ids of such a submission whose [last_email_time] is minimal
    among them: no stale active submission has an older [last_email_time]
    than the one returned (a null time sorts after every time). *)
Theorem new_patch_oldest_first db s0 :
  s0 ∈ submission_table db -> stale s0 ->
  exists s, s ∈ submission_table db /\ stale s
    /\ choose_submission_with_new_patch db = ids_of s
    /\ (forall s', s' ∈ submission_table db -> stale s' ->
          nulls_last_le (last_email_time s) (last_email_time s'))
    /\ (forall s' t', s' ∈ submission_table db -> stale s' ->
          last_email_time s' = Some t' ->
          exists t, last_email_time s = Some t /\ t <= t').
Proof.
  intros Hin Hstale.
  destruct (choose_new_patch_some db s0 Hin Hstale) as (s & Hs & Hst & Hret & Hmin).
  exists s. split; [done|]. split; [done|]. split; [done|]. split; [done|].
  intros s' t' Hs' Hst' Ht'. specialize (Hmin s' Hs' Hst').
  rewrite Ht' in Hmin. destruct (last_email_time s) as [t|]; [|done].
  by exists t.
Qed.


(** ** C9 *)

Lemma where_recently_built_spec now s :
  where_recently_built now s = true <-> rebuilt_recently now s.
Proof.
  unfold where_recently_built, rebuilt_recently.
  rewrite andb_true_iff, where_active_rebuildable.
  destruct (last_branch_time s) as [t|]; [by rewrite Z.ltb_lt|].
  split; [intros [_ [=]]|intros [_ []]].
Qed.

Lemma py_lt_spec a b : py_lt a b = true <-> (a < b)%Q.
Proof.
  unfold py_lt. rewrite Qlt_alt. by destruct (a ?= b)%Q.
Qed.

(** For every store of fewer than 5000 rebuildable submissions the float
    quotient and the rational one decide the comparison alike (beyond 119
    rebuilt in the hour both say no). *)
Lemma float_quotient_agrees :
  forallb (fun number =>
    forallb (fun current =>
      Bool.eqb (float_below_target current number)
               (py_lt (inject_Z current) (inject_Z number / CYCLE_TIME)))
      (Z.of_nat <$> seq 0 120))
    (Z.of_nat <$> seq 0 5000) = true.
Proof. vm_compute. reflexivity. Qed.

(** The comparison with the target rate, cleared of the division. *)
Lemma below_target_iff c n :
  (inject_Z c < inject_Z n / CYCLE_TIME)%Q <-> 48 * c < n.
Proof. unfold Qlt, Qdiv, Qmult, Qinv, CYCLE_TIME, inject_Z. simpl. lia. Qed.

Lemma where_count_pos {A} (p : A -> bool) rows :
  0 < Z.of_nat (length (List.filter p rows)) -> exists x, x ∈ List.filter p rows.
Proof.
  destruct (List.filter p rows) as [|x l]; simpl; [lia|].
  intros _. exists x. left.
Qed.

(** The bitrot chooser, read off its three queries. *)
Lemma choose_without_new_patch_spec now db :
  ((inject_Z (rebuilt_last_hour now db)
      < inject_Z (rebuildable_count db) / CYCLE_TIME)%Q ->
   exists s, s ∈ submission_table db /\ rebuildable s
     /\ choose_submission_without_new_patch now db = ids_of s
     /\ forall s', s' ∈ submission_table db -> rebuildable s' ->
          nulls_first_le (last_branch_time s) (last_branch_time s'))
  /\ (~ (inject_Z (rebuilt_last_hour now db)
           < inject_Z (rebuildable_count db) / CYCLE_TIME)%Q ->
      choose_submission_without_new_patch now db = (None, None)).
Proof.
  unfold choose_submission_without_new_patch. cbv zeta.
  assert (default 0 (fetchone (select_count
            (List.filter where_active (submission_table db))))
          = rebuildable_count db) as ->.
  { unfold rebuildable_count.
    by rewrite <- (where_filter where_active rebuildable)
      by apply where_active_rebuildable. }
  assert (default 0 (fetchone (select_count
            (List.filter (where_recently_built now) (submission_table db))))
          = rebuilt_last_hour now db) as ->.
  { unfold rebuilt_last_hour.
    by rewrite <- (where_filter (where_recently_built now) (rebuilt_recently now))
      by apply where_recently_built_spec. }
  split; intros Hrate.
  - pose proof Hrate as Hlt. apply py_lt_spec in Hrate as ->.
    apply below_target_iff in Hlt.
    assert (0 < Z.of_nat (length (List.filter where_active (submission_table db))))
      as Hpos.
    { rewrite (where_filter where_active rebuildable)
        by apply where_active_rebuildable.
      unfold rebuildable_count, rebuilt_last_hour in Hlt. lia. }
    apply where_count_pos in Hpos as [s0 Hs0].
    rewrite fetchone_limit_select.
    destruct (order_by_some nulls_first_le last_branch_time _ s0 Hs0) as [s Hs].
    rewrite Hs. simpl.
    apply order_by_first in Hs as [Hs Hmin]; [|apply _..].
    apply elem_of_where in Hs as [Hs Hw]. apply where_active_rebuildable in Hw.
    exists s. split; [done|]. split; [done|]. split; [done|].
    intros s' Hs' Hr'. apply Hmin, elem_of_where.
    split; [done|]. by apply where_active_rebuildable.
  - destruct (py_lt _ _) eqn:Hlt; [|done].
    by apply py_lt_spec in Hlt.
Qed.

(** C9. When no submission of the store is stale, [choose_submission] is
    the bitrot chooser.  It selects only if the number of rebuildable
    submissions (active, with a non-null message) rebuilt in the trailing
    hour is strictly below the target rate, the number of rebuildable
    submissions divided by [CYCLE_TIME] (48 hours); it then returns a
    rebuildable submission whose [last_branch_time] is the oldest, a null
    one (never built) coming before every time.  Otherwise it returns
    [(None, None)]. *)
Theorem bitrot_fallback now db :
  (forall s, s ∈ submission_table db -> ~ stale s) ->
  choose_submission now db = choose_submission_without_new_patch now db
  /\ ((inject_Z (rebuilt_last_hour now db)
         < inject_Z (rebuildable_count db) / CYCLE_TIME)%Q ->
      exists s, s ∈ submission_table db /\ rebuildable s
        /\ choose_submission now db = ids_of s
        /\ forall s', s' ∈ submission_table db -> rebuildable s' ->
             nulls_first_le (last_branch_time s) (last_branch_time s'))
  /\ (~ (inject_Z (rebuilt_last_hour now db)
           < inject_Z (rebuildable_count db) / CYCLE_TIME)%Q ->
      choose_submission now db = (None, None)).
Proof.
  intros Hnone.
  assert (choose_submission now db = choose_submission_without_new_patch now db) as ->.
  { unfold choose_submission. by rewrite (choose_new_patch_none db Hnone). }
  split; [done|]. apply choose_without_new_patch_spec.
Qed.

(** ** C3 *)

Lemma need_to_limit_rate_spec db :
  need_to_limit_rate db = true <-> CONCURRENT_BUILDS <= in_flight db.
Proof.
  unfold need_to_limit_rate, in_flight.
  rewrite (where_filter _ (fun b => branch_status b = "testing"))
    by (intros b; apply bool_decide_eq_true).
  simpl. apply Z.leb_le.
Qed.

(** C3. When the number of branches whose status is 'testing' is at least
    [CONCURRENT_BUILDS], a tick of [maybe_process_one] chooses nothing and
    processes nothing: it returns with the world exactly as it found it (no
    program started, nothing written), whatever submissions the store
    holds. *)
Theorem rate_gate_closed e w :
  CONCURRENT_BUILDS <= in_flight (store w) ->
  need_to_limit_rate (store w) = true
  /\ maybe_process_one e w = (Return tt, w).
Proof.
  intros Hbusy. apply need_to_limit_rate_spec in Hbusy. split; [done|].
  unfold maybe_process_one, mbind, M_bind, bind, read_store. simpl.
  by rewrite Hbusy.
Qed.

(** ** C4 *)

(** With ids other than zero, a stale submission always wins over the
    bitrot chooser. *)
Lemma choose_submission_new_patch_first now db s0 :
  s0 ∈ submission_table db -> stale s0 ->
  (forall s, s ∈ submission_table db -> stale s -> submission_id s ≠ 0) ->
  exists s, s ∈ submission_table db /\ stale s
    /\ choose_submission now db = ids_of s
    /\ forall s', s' ∈ submission_table db -> stale s' ->
         nulls_last_le (last_email_time s) (last_email_time s').
Proof.
  intros Hin Hstale Hids.
  destruct (choose_new_patch_some db s0 Hin Hstale) as (s & Hs & Hst & Hret & Hmin).
  exists s. split; [done|]. split; [done|]. split; [|done].
  unfold choose_submission. rewrite Hret. simpl.
  specialize (Hids s Hs Hst). by destruct (Z.eqb_spec (submission_id s) 0).
Qed.

(** C4, at [store_with_id_zero], one day after the epoch: the stale
    submission is the one the new-patch chooser returns, its id zero fails
    the test [if submission_id:], and [choose_submission] returns the
    submission of the bitrot query, which is not stale. *)
Theorem stale_id_zero_falls_through :
  stale zero_row
  /\ ~ stale unbuilt_row
  /\ choose_submission_with_new_patch store_with_id_zero = (Some 38, Some 0)
  /\ choose_submission_without_new_patch (24 * one_hour) store_with_id_zero
     = (Some 38, Some 7)
  /\ choose_submission (24 * one_hour) store_with_id_zero = (Some 38, Some 7).
Proof.
  split; [|split]; [| |by vm_compute].
  - apply where_new_patch_stale. by vm_compute.
  - intros Hst%where_new_patch_stale. by vm_compute in Hst.
Qed.

(** ** The thread resolver *)

(** The two patterns on lines of the archive. *)
Example attachment_href_gz :
  attachment_href (attachment_line "7/v1-0001-x.diff.gz")
  = Some "/message-id/attachment/7/v1-0001-x.diff.gz".
Proof. by vm_compute. Qed.

Example attachment_href_other_suffix :
  attachment_href (attachment_line "7/notes.txt") = None.
Proof. by vm_compute. Qed.

Example attachment_href_leftmost :
  attachment_href (attachment_line "7/notes.txt" +:+ attachment_line "8/a.patch"
                   +:+ attachment_line "9/b.patch")
  = Some "/message-id/attachment/8/a.patch".
Proof. by vm_compute. Qed.

Example message_id_of_header :
  message_id_of_line (header_line "CA%2Bnew%40example.org" "CA+new@example.org")
  = Some "CA+new@example.org".
Proof. by vm_compute. Qed.

Example message_id_is_greedy :
  message_id_of_line (header_line "a" "x</a></td>y") = Some "x</a></td>y".
Proof. by vm_compute. Qed.

Example message_id_of_attachment_line :
  message_id_of_line (attachment_line "8/a.patch") = None.
Proof. by vm_compute. Qed.

(** The newest message with attachments is selected, not the last message
    of the thread, and its attachments come in the order of the page. *)
Example latest_patches_of_patch_page :
  get_latest_patches_from_thread_url patch_page
  = (Some "CA+new@example.org",
     Some ["https://www.postgresql.org/message-id/attachment/201/v2-0002-b.patch";
           "https://www.postgresql.org/message-id/attachment/200/v2-0001-a.patch";
           "https://www.postgresql.org/message-id/attachment/202/v2-0003-c.patch"]).
Proof. by vm_compute. Qed.

Lemma chars_app s t : chars (s +:+ t) = chars s ++ chars t.
Proof.
  induction s as [|a s IH]; [done|].
  change (a :: chars (s +:+ t) = a :: (chars s ++ chars t)). by f_equal.
Qed.

(** A successful search is an anchored match somewhere in the line. *)
Lemma search_some {A} (here : list ascii -> option A) s g :
  search here s = Some g -> exists s', here s' = Some g.
Proof.
  induction s as [|c s IH]; simpl.
  - destruct (here []) eqn:Hh; [|done]. intros [= <-]. by eexists.
  - destruct (here (c :: s)) eqn:Hh; [intros [= <-]; by eexists|]. apply IH.
Qed.

(** Group 1 of the attachment pattern starts with the fixed path. *)
Lemma attachment_match_prefix s g :
  attachment_match_here s = Some g ->
  exists body, g = attachment_prefix +:+ of_chars body.
Proof.
  unfold attachment_match_here. intros Hm.
  destruct (strip_literal _ s) as [rest|]; [|done].
  cbn [mbind option_bind] in Hm.
  destruct (span_unquoted rest) as [body tail].
  destruct (strip_literal (dq :: chars ">") tail); [|done].
  cbn [mbind option_bind] in Hm.
  destruct (existsb _ _); [|done].
  injection Hm as <-. by eexists.
Qed.

Lemma accepted_attachment_kept line u :
  accepted_attachment line = Some u ->
  endswith u skipped_attachment = false.
Proof.
  unfold accepted_attachment.
  destruct (attachment_href line) as [g|] eqn:Hg; [|done].
  destruct (endswith g skipped_attachment) eqn:Hskip; [done|]. simpl.
  intros [= <-].
  apply search_some in Hg as [s' Hm].
  apply attachment_match_prefix in Hm as [body ->].
  unfold endswith in *.
  apply bool_decide_eq_false. apply bool_decide_eq_false in Hskip.
  intros Hsuf. rewrite chars_app in Hsuf.
  destruct (suffix_weak_total _ _ _ Hsuf
              (suffix_app_r _ _ (chars "https://www.postgresql.org") (reflexivity _)))
    as [Hin|Hout]; [done|].
  rewrite chars_app in Hout.
  assert ("/"%char ∈ chars skipped_attachment) as Hslash.
  { eapply elem_of_suffix; [|exact Hout]. left. }
  revert Hslash. apply (bool_decide_eq_false_1 _). by vm_compute.
Qed.

(** The loop keeps only accepted URLs in both of its lists. *)
Lemma scan_lines_kept (P : string -> Prop) lines st :
  (forall line u, accepted_attachment line = Some u -> P u) ->
  Forall P (selected_message_attachments st) ->
  Forall P (message_attachments st) ->
  Forall P (selected_message_attachments (fold_left scan_line lines st))
  /\ Forall P (message_attachments (fold_left scan_line lines st)).
Proof.
  intros Hacc. revert st.
  induction lines as [|line lines IH]; intros st Hsel Hcur; [done|].
  simpl. apply IH; unfold scan_line;
    destruct (accepted_attachment line) as [u|] eqn:Hu;
    destruct (message_id_of_line line); simpl;
    rewrite ?Forall_app, ?Forall_singleton; eauto.
Qed.

(** ** C10 *)

(** C10. For every page, no URL of the attachment list that
    [get_latest_patches_from_thread_url] returns ends in
    jabiru_2022-03-28_20-25-16.tar.gz; and a line whose attachment link
    ends in that name, though it matches the attachment pattern, is
    treated by the loop as a line without an attachment: nothing is
    appended and the selected message is not changed. *)
Theorem skipped_attachment_never_returned lines :
  Forall (fun u => endswith u skipped_attachment = false)
         (default [] (get_latest_patches_from_thread_url lines).2)
  /\ forall st line g,
       attachment_href line = Some g ->
       endswith g skipped_attachment = true ->
       accepted_attachment line = None
       /\ scan_line st line = scan_header_only st line.
Proof.
  split.
  - unfold get_latest_patches_from_thread_url.
    destruct (_ && _); simpl; [constructor|].
    apply (scan_lines_kept _ lines scan_init); [|constructor..].
    apply accepted_attachment_kept.
  - intros st line g Hg Hskip.
    assert (accepted_attachment line = None) as Hnone.
    { unfold accepted_attachment. by rewrite Hg, Hskip. }
    split; [done|]. unfold scan_line. by rewrite Hnone.
Qed.

(** ** C6 *)

(** The lines of one message: none of them is a header, so the list of the
    message grows by their accepted attachments, and the selection follows
    it as soon as there is one. *)
Lemma scan_message_lines body st :
  Forall (fun line => message_id_of_line line = None) body ->
  message_attachments (fold_left scan_line body st)
  = message_attachments st ++ accepted_attachments body
  /\ message_id (fold_left scan_line body st) = message_id st.
Proof.
  intros Hall. revert st.
  induction Hall as [|line body Hline _ IH]; intros st.
  - simpl. by rewrite app_nil_r.
  - simpl. destruct (IH (scan_line st line)) as [-> ->].
    unfold accepted_attachments, scan_line. simpl. rewrite Hline.
    destruct (accepted_attachment line) as [u|]; simpl; [|done].
    by rewrite <- app_assoc.
Qed.

(** A line with an accepted attachment selects the message it is read in,
    with the list as it then stands, whether or not the line is itself a
    header. *)
Lemma scan_line_selects st line u :
  accepted_attachment line = Some u ->
  selected_message_attachments (scan_line st line) = message_attachments st ++ [u]
  /\ selected_message_id (scan_line st line) = message_id st.
Proof.
  intros Hu. unfold scan_line. rewrite Hu. by destruct (message_id_of_line line).
Qed.

Lemma scan_other_lines post st :
  Forall (fun line => accepted_attachment line = None) post ->
  selected_message_attachments (fold_left scan_line post st)
    = selected_message_attachments st
  /\ selected_message_id (fold_left scan_line post st) = selected_message_id st.
Proof.
  intros Hall. revert st.
  induction Hall as [|line post Hnone _ IH]; intros st; [done|].
  simpl. destruct (IH (scan_line st line)) as [-> ->].
  unfold scan_line. rewrite Hnone. by destruct (message_id_of_line line).
Qed.

(** After a header the list of the message is empty. *)
Lemma scan_line_header st header m :
  message_id_of_line header = Some m ->
  message_attachments (scan_line st header) = []
  /\ message_id (scan_line st header) = Some m.
Proof.
  intros Hm. unfold scan_line. rewrite Hm. by destruct (accepted_attachment header).
Qed.

(** The message the loop selects on a page whose last accepted attachment
    is on the line [last], in the message of header [m]: the lines between
    the header and [last] hold no header, and no line after [last] holds
    an accepted attachment.  Whatever else these lines hold, and whatever
    comes before the header, does not count. *)
Lemma scan_newest_message pre header m body last u post :
  message_id_of_line header = Some m ->
  Forall (fun line => message_id_of_line line = None) body ->
  accepted_attachment last = Some u ->
  Forall (fun line => accepted_attachment line = None) post ->
  selected_message_attachments (scan_lines (pre ++ header :: body ++ last :: post))
  = accepted_attachments body ++ [u]
  /\ selected_message_id (scan_lines (pre ++ header :: body ++ last :: post)) = Some m.
Proof.
  intros Hm Hbody Hlast Hpost. unfold scan_lines.
  rewrite fold_left_app. simpl. rewrite fold_left_app. simpl.
  set (st := scan_line (fold_left scan_line pre scan_init) header).
  destruct (scan_other_lines post (scan_line (fold_left scan_line body st) last) Hpost)
    as [-> ->].
  destruct (scan_line_selects (fold_left scan_line body st) last u Hlast) as [-> ->].
  destruct (scan_message_lines body st Hbody) as [-> ->].
  destruct (scan_line_header (fold_left scan_line pre scan_init) header m Hm) as [Hatts Hid].
  subst st. by rewrite Hatts, Hid.
Qed.

(** The same before any header: the attachments are selected with no
    message id. *)
Lemma scan_headless_message body last u post :
  Forall (fun line => message_id_of_line line = None) body ->
  accepted_attachment last = Some u ->
  Forall (fun line => accepted_attachment line = None) post ->
  selected_message_attachments (scan_lines (body ++ last :: post))
  = accepted_attachments body ++ [u]
  /\ selected_message_id (scan_lines (body ++ last :: post)) = None.
Proof.
  intros Hbody Hlast Hpost. unfold scan_lines.
  rewrite fold_left_app. simpl.
  destruct (scan_other_lines post (scan_line (fold_left scan_line body scan_init) last)
              Hpost) as [-> ->].
  destruct (scan_line_selects (fold_left scan_line body scan_init) last u Hlast)
    as [-> ->].
  by destruct (scan_message_lines body scan_init Hbody) as [-> ->].
Qed.

(** The last element of a list with a property, and what comes after. *)
Lemma split_at_last {A} (P : A -> Prop) `{!forall x, Decision (P x)} (l : list A) :
  Forall (fun x => ~ P x) l
  \/ exists pre x post, l = pre ++ x :: post /\ P x /\ Forall (fun x => ~ P x) post.
Proof.
  induction l as [|a l IH]; [by left|].
  destruct IH as [Hnone|(pre & x & post & -> & Hx & Hpost)].
  - destruct (decide (P a)) as [Ha|Ha].
    + right. by exists [], a, l.
    + left. by constructor.
  - right. by exists (a :: pre), x, post.
Qed.

(** Every page has one of three shapes: no accepted attachment at all; a
    last accepted attachment with no header before it; or a last accepted
    attachment in the message of the last header before it. *)
Lemma page_shapes lines :
  Forall (fun line => accepted_attachment line = None) lines
  \/ (exists body last u post,
        lines = body ++ last :: post
        /\ Forall (fun line => message_id_of_line line = None) body
        /\ accepted_attachment last = Some u
        /\ Forall (fun line => accepted_attachment line = None) post)
  \/ (exists pre header m body last u post,
        lines = pre ++ header :: body ++ last :: post
        /\ message_id_of_line header = Some m
        /\ Forall (fun line => message_id_of_line line = None) body
        /\ accepted_attachment last = Some u
        /\ Forall (fun line => accepted_attachment line = None) post).
Proof.
  assert (forall (f : string -> option string) l,
            Forall (fun x => ~ is_Some (f x)) l -> Forall (fun x => f x = None) l)
    as Hnone.
  { intros f l Hl. eapply Forall_impl; [exact Hl|].
    intros x Hx. by apply eq_None_not_Some. }
  destruct (split_at_last (fun line => is_Some (accepted_attachment line)) lines)
    as [Hno|(front & last & post & -> & [u Hu] & Hpost)].
  { left. by apply Hnone. }
  right.
  destruct (split_at_last (fun line => is_Some (message_id_of_line line)) front)
    as [Hno|(pre & header & body & -> & [m Hm] & Hbody)].
  - left. exists front, last, u, post. auto.
  - right. exists pre, header, m, body, last, u, post.
    rewrite <- app_assoc. simpl. auto 6.
Qed.

(** A page on which the message with the tarball also carries a file that
    the attachment pattern does not accept: the tarball is returned. *)
Lemma tarball_beside_other_file_is_accepted :
  attachment_href (attachment_line "302/benchmark.txt") = None
  /\ get_latest_patches_from_thread_url tarball_note_page
     = (Some "CA+mix@example.org",
        Some ["https://www.postgresql.org/message-id/attachment/300/v3.tar.gz"]).
Proof. by vm_compute. Qed.

(** C6, as the code has it.  Take any page, its last accepted attachment
    [u] on the line [last], and the header [m] of the message that line
    belongs to, with the lines [body] of the message before [last].  If
    the accepted attachments of the message include a tarball (a URL
    ending in .tgz, .tar.gz or .tar.bz2) and there is more than one of
    them, resolution returns [(None, None)]: no message id and no
    attachment list.  If [u] is the only accepted attachment of the
    message, tarball or not, its id and the one URL are returned; what the
    message carries besides, in links that the pattern does not accept, does
    not count. *)
Theorem tarball_must_be_sole_attachment pre header m body last u post :
  message_id_of_line header = Some m ->
  Forall (fun line => message_id_of_line line = None) body ->
  accepted_attachment last = Some u ->
  Forall (fun line => accepted_attachment line = None) post ->
  (existsb is_tarball (accepted_attachments body ++ [u]) = true ->
   accepted_attachments body ≠ [] ->
   get_latest_patches_from_thread_url (pre ++ header :: body ++ last :: post)
   = (None, None))
  /\ (accepted_attachments body = [] ->
      get_latest_patches_from_thread_url (pre ++ header :: body ++ last :: post)
      = (Some m, Some [u])).
Proof.
  intros Hm Hbody Hlast Hpost. unfold get_latest_patches_from_thread_url.
  destruct (scan_newest_message pre header m body last u post Hm Hbody Hlast Hpost)
    as [-> ->].
  split.
  - intros -> Hmore. rewrite length_app. simpl.
    destruct (accepted_attachments body); [done|]. simpl.
    assert ((1 <? Z.of_nat (S (length l + 1))) = true) as -> by (apply Z.ltb_lt; lia).
    done.
  - intros ->. simpl. by rewrite andb_false_r.
Qed.

(** ** Reasoning about the pipeline *)

Section invariants.
Context (I : world -> Prop).

Lemma keeps_ret {A} (a : A) : keeps I (mret a).
Proof. by intros w. Qed.

Lemma keeps_raise {A} x : keeps I (raise (A:=A) x).
Proof. by intros w. Qed.

Lemma keeps_lift {A} (o : outcome A) : keeps I (lift o).
Proof. by intros w. Qed.

Lemma keeps_bind {A B} (m : M A) (k : A -> M B) :
  keeps I m -> (forall a, keeps I (k a)) -> keeps I (m ≫= k).
Proof.
  intros Hm Hk w Hw. unfold mbind, M_bind, bind.
  specialize (Hm w Hw). destruct (m w) as [[a|x] w']; [|done].
  by apply Hk.
Qed.

Lemma keeps_kwarg kwargs key : keeps I (kwarg kwargs key).
Proof. unfold kwarg. destruct (kwargs !! key); [apply keeps_ret|apply keeps_raise]. Qed.

Lemma keeps_percent_d v : keeps I (percent_d v).
Proof. destruct v; first [apply keeps_ret|apply keeps_raise]. Qed.

Lemma keeps_check_call e c : keeps I (run e c) -> keeps I (check_call e c).
Proof.
  intros Hrun. apply keeps_bind; [done|]. intros rc.
  destruct (negb _); [apply keeps_raise|apply keeps_ret].
Qed.

Lemma keeps_getsize e f : keeps I (getsize e f).
Proof. unfold getsize. destruct (msg_size e f); [apply keeps_ret|apply keeps_raise]. Qed.

Lemma keeps_decode e c : keeps I (decode e c).
Proof. unfold decode. destruct (utf8_valid _); [apply keeps_ret|apply keeps_raise]. Qed.
End invariants.

Lemma returns_bind {A B} (m : M A) (k : A -> M B) Q :
  (forall a, returns (k a) Q) -> returns (m ≫= k) Q.
Proof.
  intros Hk w. unfold mbind, M_bind, bind.
  destruct (m w) as [[a|x] w']; [apply Hk|done].
Qed.

Lemma returns_raise {A} x (Q : A -> world -> Prop) : returns (raise x) Q.
Proof. by intros w. Qed.

(** The pipeline walked bind by bind, splitting on every test. *)
Ltac walk leaf :=
  repeat first
    [ apply keeps_bind; [|intros ?]
    | apply keeps_ret
    | apply keeps_raise
    | apply keeps_lift
    | apply keeps_kwarg
    | apply keeps_percent_d
    | apply keeps_check_call
    | apply keeps_getsize
    | apply keeps_decode
    | progress leaf
    | match goal with
      | |- keeps _ (if ?b then _ else _) => destruct b
      | |- keeps _ (match ?x with _ => _ end) => destruct x
      | |- keeps _ (let '(_, _) := ?x in _) => destruct x
      end ].

(** *** The store is never written *)

Lemma store_effect e c rc w : store (effect e c rc w) = store w.
Proof. unfold effect. destruct c; try destruct (negb _); done. Qed.

Lemma same_store_run db e c : keeps (same_store db) (run e c).
Proof. intros w Hw. unfold run, same_store. simpl. by rewrite store_effect. Qed.

Lemma same_store_write db j : keeps (same_store db) (write j).
Proof. by intros w. Qed.

Lemma same_store_touch db f : keeps (same_store db) (touch f).
Proof. by intros w. Qed.

Lemma same_store_listdir db : keeps (same_store db) listdir.
Proof. by intros w. Qed.

Ltac store_leaf :=
  first [ apply same_store_run | apply same_store_write
        | apply same_store_touch | apply same_store_listdir ].

Lemma same_store_fetch_all db e urls : keeps (same_store db) (fetch_all e urls).
Proof. induction urls; simpl; walk store_leaf. done. Qed.

Lemma same_store_decompress db e patches : keeps (same_store db) (decompress e patches).
Proof. induction patches; simpl; walk store_leaf. done. Qed.

Lemma same_store_apply_all db e rcode patches :
  keeps (same_store db) (apply_all e rcode patches).
Proof.
  revert rcode. induction patches; intros rcode; simpl; [apply keeps_ret|].
  unfold apply_one, report. walk store_leaf. all: apply IHpatches.
Qed.

Lemma same_store_process_submission db e kwargs :
  keeps (same_store db) (process_submission e kwargs).
Proof.
  unfold process_submission, start_attempt, finish_attempt, make_branch,
    update_patchbase_tree, get_commit_id.
  walk ltac:(first [ store_leaf | apply same_store_fetch_all
                   | apply same_store_decompress | apply same_store_apply_all ]).
Qed.

(** Whatever happens in an attempt, the store is afterwards what it was. *)
Lemma process_submission_store e kwargs w :
  store (process_submission e kwargs w).2 = store w.
Proof. by apply (same_store_process_submission (store w)). Qed.


(** *** Nothing is published before the files are applied *)

Lemma unpublished_refl w : unpublished w w.
Proof. split; [done|]. exists []. by rewrite app_nil_r. Qed.

Lemma ran_effect e c rc w : ran (effect e c rc w) = ran w.
Proof. unfold effect. destruct c; try destruct (negb _); done. Qed.

Lemma remote_effect e c rc w :
  publishes c = false -> remote (effect e c rc w) = remote w.
Proof. unfold effect. destruct c; try destruct (negb _); done. Qed.

Lemma unpublished_run w0 e c :
  publishes c = false -> keeps (unpublished w0) (run e c).
Proof.
  intros Hc w (Hremote & cmds & Hran & Hcmds). unfold run. simpl. split.
  - by rewrite remote_effect.
  - exists (cmds ++ [c]). rewrite ran_effect. simpl. rewrite Hran, app_assoc.
    split; [done|]. apply Forall_app. split; [done|]. by apply Forall_singleton.
Qed.

Lemma unpublished_write w0 j : keeps (unpublished w0) (write j).
Proof. by intros w. Qed.

Lemma unpublished_touch w0 f : keeps (unpublished w0) (touch f).
Proof. by intros w. Qed.

Lemma unpublished_listdir w0 : keeps (unpublished w0) listdir.
Proof. by intros w. Qed.

Ltac quiet_leaf :=
  first [ apply unpublished_run; reflexivity | apply unpublished_write
        | apply unpublished_touch | apply unpublished_listdir ].

Lemma unpublished_fetch_all w0 e urls : keeps (unpublished w0) (fetch_all e urls).
Proof. induction urls; simpl; walk quiet_leaf. done. Qed.

Lemma unpublished_decompress w0 e patches :
  keeps (unpublished w0) (decompress e patches).
Proof. induction patches; simpl; walk quiet_leaf. done. Qed.

Lemma unpublished_start_attempt w0 e kwargs :
  keeps (unpublished w0) (start_attempt e kwargs).
Proof.
  unfold start_attempt, update_patchbase_tree, get_commit_id.
  walk ltac:(first [ quiet_leaf | apply unpublished_fetch_all
                   | apply unpublished_decompress ]).
Qed.

(** An attempt that reaches the loop over the files starts it on a branch
    with no commit above the baseline and a clean index. *)
Lemma start_attempt_fresh e kwargs :
  returns (start_attempt e kwargs)
          (fun r w' => r ≠ None -> branch w' = [] /\ index w' = []).
Proof.
  unfold start_attempt.
  repeat lazymatch goal with
  | |- returns (mbind _ (check_call _ (GitCheckout _))) _ => fail
  | |- returns (mbind _ _) _ => apply returns_bind; intros ?
  | |- returns (if ?b then _ else _) _ => destruct b
  | |- returns (match ?x with _ => _ end) _ => destruct x
  | |- returns (raise _) _ => apply returns_raise
  end.
  - by intros w.
  - intros w. unfold check_call, run, write, effect, mbind, M_bind, bind,
      mret, M_ret, ret, raise. simpl.
    by destruct (exit_code e (GitCheckout _) =? 0).
Qed.

(** *** The order of the files *)

Example url_basename_of_attachment :
  url_basename "https://www.postgresql.org/message-id/attachment/201/v2-0002-b.patch?x=1"
  = "v2-0002-b.patch".
Proof. by vm_compute. Qed.

Example strip_of_blank_output :
  strip (String "010" (String "009" " ")) = "" /\ strip " Author: A " = "Author: A".
Proof. by vm_compute. Qed.

(** The files are applied in the order of their names, however the
    directory lists them. *)
Lemma application_order_is_sorted (files files' : list string) :
  files ≡ₚ files' -> merge_sort String.le files = merge_sort String.le files'.
Proof.
  intros Hperm. apply (Sorted_unique String.le).
  - apply (Sorted_merge_sort String.le).
  - apply (Sorted_merge_sort String.le).
  - by rewrite !merge_sort_Permutation.
Qed.

Example start_attempt_orders_the_files :
  (start_attempt env_clean kwargs_ids idle_world).1
  = Return (Some (Attempt "38" "3633" "0a1b2c3d" (Some "CA+new@example.org")
                          ["v2-0001-a.patch"; "v2-0002-b.patch"; "v2-0003-c.patch"]
                          "commitfest/38/3633")).
Proof. by vm_compute. Qed.

(** *** The loop over the files *)

(** The test of the loop is the claim's condition on the file. *)
Lemma raw_diff_test_spec e f size :
  msg_size e f = Some size ->
  raw_diff_test (tool_output e (GitMailinfo f)) size = is_raw_diff e f.
Proof.
  intros Hsize. unfold raw_diff_test, is_raw_diff, truthy_str.
  rewrite negb_involutive.
  destruct (Z.eqb_spec size 0) as [->|Hne].
  - rewrite andb_true_r. apply bool_decide_ext. unfold headerless. rewrite Hsize.
    split; [by intros ?|by intros [? _]].
  - rewrite andb_false_r. symmetry. apply bool_decide_eq_false.
    intros [_ Hzero]. congruence.
Qed.

Lemma is_raw_diff_unsized e f : msg_size e f = None -> is_raw_diff e f = false.
Proof.
  intros Hsize. unfold is_raw_diff.
  apply bool_decide_eq_false. intros [_ Hzero]. congruence.
Qed.

(** How the body of the loop ends for a file. *)
Lemma apply_one_outcome e f w : (apply_one e f w).1 = apply_outcome e f.
Proof.
  unfold apply_one, apply_outcome, getsize, report, decode, apply_exit, apply_output,
    apply_command.
  unfold run, write, mbind, M_bind, bind, mret, M_ret, ret, raise. simpl.
  destruct (msg_size e f) as [size|] eqn:Hsize; [|done].
  rewrite (raw_diff_test_spec e f size Hsize).
  destruct (is_raw_diff e f); simpl; by destruct (utf8_valid _).
Qed.

Lemma apply_one_clean e f w :
  applies e f -> apply_one e f w = (Return 0, applied e [f] w).
Proof.
  intros [[[size Hsize] Hutf] Hrc].
  unfold apply_exit, apply_output, apply_command in *.
  unfold applied, apply_one, getsize, report, decode, raw_diffs, file_commits,
    applied_commands, applied_output, apply_output, apply_command.
  unfold run, write, effect, mbind, M_bind, bind, mret, M_ret, ret, raise. simpl.
  rewrite Hsize, (raw_diff_test_spec e f size Hsize).
  destruct (is_raw_diff e f); simpl; rewrite Hutf, Hrc; simpl;
    by rewrite <- !app_assoc, ?app_nil_r.
Qed.

Lemma apply_one_rejected e f w :
  readable e f -> apply_exit e f ≠ 0 ->
  apply_one e f w = (Return (apply_exit e f), rejected e f w).
Proof.
  intros [[size Hsize] Hutf] Hrc. apply Z.eqb_neq in Hrc.
  unfold apply_exit, apply_output, apply_command in *.
  unfold rejected, apply_one, getsize, report, decode, partial_commits,
    applied_commands, applied_output, apply_output, apply_command.
  unfold run, write, effect, mbind, M_bind, bind, mret, M_ret, ret, raise. simpl.
  rewrite Hsize, (raw_diff_test_spec e f size Hsize).
  destruct (is_raw_diff e f); simpl; rewrite Hutf, Hrc; simpl;
    by rewrite <- !app_assoc, ?app_nil_r.
Qed.

Lemma applied_app e fs gs w : applied e gs (applied e fs w) = applied e (fs ++ gs) w.
Proof.
  unfold applied, raw_diffs, applied_commands, applied_output. simpl.
  rewrite !List.filter_app, !flat_map_app, <- !app_assoc. done.
Qed.

Lemma applied_nil e w : applied e [] w = w.
Proof. unfold applied. simpl. rewrite !app_nil_r. by destruct w. Qed.

(** Files that all apply are all applied, in order. *)
Lemma apply_all_clean e files w :
  Forall (applies e) files ->
  apply_all e 0 files w = (Return 0, applied e files w).
Proof.
  intros Hall. revert w. induction Hall as [|f files Hf _ IH]; intros w.
  - by rewrite applied_nil.
  - simpl. unfold mbind, M_bind, bind. rewrite (apply_one_clean e f w Hf). simpl.
    rewrite IH. by rewrite applied_app.
Qed.

(** The loop leaves at the first file that does not apply. *)
Lemma apply_all_stops e pre f post w :
  Forall (applies e) pre ->
  readable e f -> apply_exit e f ≠ 0 ->
  apply_all e 0 (pre ++ f :: post) w
  = (Return (apply_exit e f), rejected e f (applied e pre w)).
Proof.
  intros Hall Hread Hf. revert w. induction Hall as [|g pre Hg _ IH]; intros w.
  - simpl. unfold mbind, M_bind, bind. rewrite (apply_one_rejected e f w Hread Hf). simpl.
    apply Z.eqb_neq in Hf. rewrite Hf. simpl. by rewrite applied_nil.
  - simpl. unfold mbind, M_bind, bind. rewrite (apply_one_clean e g w Hg). simpl.
    rewrite IH. by rewrite applied_app.
Qed.

(** A file that does not apply ends the loop as it ends its own step: with
    its exit code, which is not zero, or with the exception of its
    report. *)
Lemma apply_outcome_stops e f :
  ~ applies e f ->
  match apply_outcome e f with
  | Return rc => rc = apply_exit e f /\ rc ≠ 0
  | Raise x => x = OSError "./msg" \/ x = UnicodeDecodeError (apply_command e f)
  end.
Proof.
  intros Hf. unfold apply_outcome.
  destruct (msg_size e f) as [size|] eqn:Hsize; [|by left].
  destruct (utf8_valid _) eqn:Hutf; [|by right].
  split; [done|]. intros Hrc. apply Hf. split; [|done]. split; [|done].
  rewrite Hsize. by eexists.
Qed.

Lemma apply_all_first e pre f post w :
  Forall (applies e) pre -> ~ applies e f ->
  (apply_all e 0 (pre ++ f :: post) w).1 = apply_outcome e f.
Proof.
  intros Hall Hf. revert w. induction Hall as [|g pre Hg _ IH]; intros w.
  - simpl. unfold mbind, M_bind, bind.
    pose proof (apply_one_outcome e f w) as Hout.
    pose proof (apply_outcome_stops e f Hf) as Hstop.
    destruct (apply_one e f w) as [[rc|x] w']; simpl in Hout; rewrite <- Hout in *.
    + destruct Hstop as [_ Hrc]. apply Z.eqb_neq in Hrc. by rewrite Hrc.
    + done.
  - simpl. unfold mbind, M_bind, bind. rewrite (apply_one_clean e g w Hg). simpl.
    apply IH.
Qed.

(** The files of a list before the first that does not apply. *)
Lemma first_that_stops e files :
  Forall (applies e) files
  \/ exists pre f post, files = pre ++ f :: post
       /\ Forall (applies e) pre /\ ~ applies e f
       /\ list_find (fun f => ~ applies e f) files = Some (length pre, f).
Proof.
  induction files as [|g files IH]; [by left|].
  destruct (decide (applies e g)) as [Hg|Hg].
  - destruct IH as [Hall|(pre & f & post & -> & Hpre & Hf & Hfind)].
    + left. by constructor.
    + right. exists (g :: pre), f, post. split; [done|]. split; [by constructor|].
      split; [done|]. simpl. rewrite decide_False by tauto. by rewrite Hfind.
  - right. exists [], g, files. split; [done|]. split; [constructor|].
    split; [done|]. simpl. by rewrite decide_True.
Qed.

Lemma applied_commands_quiet e files :
  Forall (fun c => publishes c = false) (applied_commands e files).
Proof.
  unfold applied_commands. induction files as [|f files IH]; simpl; [constructor|].
  constructor; [done|]. constructor; [|done].
  unfold apply_command. by destruct (is_raw_diff e f).
Qed.

(** What [process_submission] does once the loop has met a file that does
    not apply. *)
Lemma finish_attempt_rejected e kwargs a w1 pre f post :
  att_patches a = pre ++ f :: post ->
  Forall (applies e) pre ->
  readable e f -> apply_exit e f ≠ 0 ->
  finish_attempt e kwargs a w1
  = (Return None,
     let w2 := rejected e f (applied e pre w1) in
     World (store w2) (patch_dir w2) (branch w2) (index w2) (remote w2) (ran w2)
           (journal w2 ++ [Printed ("we failed to apply the patches: ... "
                                    +:+ att_commitfest_id a +:+ " "
                                    +:+ att_submission_id a)])).
Proof.
  intros Hfiles Hpre Hread Hf. unfold finish_attempt, mbind, M_bind, bind.
  rewrite Hfiles, (apply_all_stops e pre f post w1 Hpre Hread Hf).
  apply Z.eqb_neq in Hf. by rewrite Hf.
Qed.

(** [make_branch] with every field of its template among the keyword
    arguments. *)
Lemma make_branch_filled e kwargs cf sub name message_id authors base_branch :
  kwargs !! "commitfest_id" = Some cf ->
  kwargs !! "submission_id" = Some sub ->
  kwargs !! "name" = Some name ->
  kwargs !! "message_id" = Some message_id ->
  kwargs !! "authors" = Some authors ->
  kwargs !! "base_branch" = Some base_branch ->
  make_branch e kwargs
  = check_call e (GitCommit (Banner cf sub name message_id authors base_branch)).
Proof.
  intros Hcf Hsub Hname Hmid Hauthors Hbase. unfold make_branch, kwarg.
  by rewrite Hcf, Hsub, Hname, Hmid, Hauthors, Hbase.
Qed.

(** The keyword arguments of a caller that the call of [make_branch]
    accepts: none of them has the name of an argument given there. *)
Lemma caller_kwargs_accepted (kwargs : gmap string pyval) :
  kwargs !! "conn" = None -> kwargs !! "patch_dir" = None ->
  kwargs !! "message_id" = None -> kwargs !! "base_branch" = None ->
  bool_decide (is_Some (kwargs !! "message_id") \/ is_Some (kwargs !! "base_branch")) = false
  /\ bool_decide (is_Some (kwargs !! "conn") \/ is_Some (kwargs !! "patch_dir")) = false.
Proof.
  intros -> -> -> ->. split; apply bool_decide_eq_false; intros [[? [=]]|[? [=]]].
Qed.

(** What [process_submission] does once every file has applied, when the
    call names the submission and its authors and git accepts the commit
    and the push: the banner commit takes the raw diffs of the index, and
    the branch is pushed. *)
Lemma finish_attempt_published e kwargs a w1 :
  Forall (applies e) (att_patches a) ->
  is_Some (kwargs !! "commitfest_id") -> is_Some (kwargs !! "submission_id") ->
  is_Some (kwargs !! "name") -> is_Some (kwargs !! "authors") ->
  kwargs !! "conn" = None -> kwargs !! "patch_dir" = None ->
  kwargs !! "message_id" = None -> kwargs !! "base_branch" = None ->
  exit_code e (GitCommit (banner_of kwargs a)) = 0 ->
  exit_code e (GitPush GIT_REMOTE_NAME (att_branch a)) = 0 ->
  exists w', finish_attempt e kwargs a w1 = (Return (Some true), w')
    /\ branch w' = branch w1 ++ flat_map (file_commits e) (att_patches a)
                   ++ [BannerCommit (banner_of kwargs a)
                                    (index w1 ++ raw_diffs e (att_patches a))]
    /\ index w' = []
    /\ remote w' = remote w1 ++ [(att_branch a, branch w')].
Proof.
  intros Hclean [cf Hcf] [sub Hsub] [name Hname] [authors Hauthors] Hconn Hdir Hmid Hbase
    Hcommit Hpush.
  unfold finish_attempt, mbind, M_bind, bind.
  rewrite (apply_all_clean e (att_patches a) w1 Hclean). simpl.
  destruct (caller_kwargs_accepted kwargs Hconn Hdir Hmid Hbase) as [-> ->].
  rewrite (make_branch_filled e _ cf sub name
             (from_option PyStr PyNone (att_message_id a)) authors
             (PyStr (att_commit_id a)));
    try (by rewrite !lookup_insert_ne by done);
    try (by rewrite lookup_insert_ne, lookup_insert_eq by done);
    try (by rewrite lookup_insert_eq).
  unfold banner_of in *. rewrite Hcf, Hsub, Hname, Hauthors in *. simpl in *.
  unfold check_call, run, write, mbind, M_bind, bind, mret, M_ret, ret. simpl.
  rewrite Hcommit. simpl. rewrite Hpush. simpl.
  eexists. split; [reflexivity|]. simpl. by rewrite <- app_assoc.
Qed.

(** A keyword argument of the caller named like an argument that the call
    of [make_branch] gives itself stops the attempt after the files have
    applied, before any commit. *)
Lemma caller_argument_clash e kwargs a w1 key :
  Forall (applies e) (att_patches a) ->
  key ∈ ["conn"; "patch_dir"; "message_id"; "base_branch"] ->
  is_Some (kwargs !! key) ->
  exists what, finish_attempt e kwargs a w1
               = (Raise (TypeError what), applied e (att_patches a) w1).
Proof.
  intros Hclean Hkey Hsome.
  unfold finish_attempt, mbind, M_bind, bind.
  rewrite (apply_all_clean e (att_patches a) w1 Hclean). simpl.
  destruct (bool_decide (is_Some (kwargs !! "message_id") \/ _)) eqn:Hdup;
    [by eexists|].
  apply bool_decide_eq_false in Hdup.
  rewrite bool_decide_eq_true_2; [by eexists|].
  repeat (apply elem_of_cons in Hkey as [->|Hkey]); try tauto.
  by apply elem_of_nil in Hkey.
Qed.

Lemma process_submission_rejected e kwargs w a w1 pre f post :
  start_attempt e kwargs w = (Return (Some a), w1) ->
  att_patches a = pre ++ f :: post ->
  Forall (applies e) pre ->
  readable e f -> apply_exit e f ≠ 0 ->
  process_submission e kwargs w
  = (Return None,
     let w2 := rejected e f (applied e pre w1) in
     World (store w2) (patch_dir w2) (branch w2) (index w2) (remote w2) (ran w2)
           (journal w2 ++ [Printed ("we failed to apply the patches: ... "
                                    +:+ att_commitfest_id a +:+ " "
                                    +:+ att_submission_id a)]))
  /\ remote w1 = remote w.
Proof.
  intros Hstart Hfiles Hpre Hread Hf. split.
  - unfold process_submission, mbind, M_bind, bind. rewrite Hstart.
    apply (finish_attempt_rejected e kwargs a w1 pre f post Hfiles Hpre Hread Hf).
  - pose proof (unpublished_start_attempt w e kwargs w (unpublished_refl w)) as Hq.
    rewrite Hstart in Hq. apply Hq.
Qed.

Lemma unpublished_apply_all w0 e rcode patches :
  keeps (unpublished w0) (apply_all e rcode patches).
Proof.
  revert rcode. induction patches; intros rcode; simpl; [apply keeps_ret|].
  unfold apply_one, report. walk quiet_leaf. all: apply IHpatches.
Qed.

Lemma unpublished_trans w0 w1 w2 :
  unpublished w0 w1 -> unpublished w1 w2 -> unpublished w0 w2.
Proof.
  intros (Hr1 & c1 & Hc1 & Hq1) (Hr2 & c2 & Hc2 & Hq2). split; [congruence|].
  exists (c1 ++ c2). split; [by rewrite Hc2, Hc1, app_assoc|].
  by apply Forall_app.
Qed.

(** When some file of the list does not apply, the loop does not end with
    a zero [rcode]. *)
Lemma apply_all_nonzero e files w :
  Exists (fun f => apply_exit e f ≠ 0) files ->
  (apply_all e 0 files w).1 ≠ Return 0.
Proof.
  intros Hfail Hzero.
  destruct (first_that_stops e files)
    as [Hall|(pre & f & post & -> & Hpre & Hf & _)].
  - apply Exists_exists in Hfail as (f & Hin & Hf).
    rewrite Forall_forall in Hall. by destruct (Hall f Hin).
  - rewrite (apply_all_first e pre f post w Hpre Hf) in Hzero.
    pose proof (apply_outcome_stops e f Hf) as Hstop. rewrite Hzero in Hstop.
    by destruct Hstop.
Qed.

(** An attempt with a file that does not apply publishes nothing, however
    it ends. *)
Lemma finish_attempt_unpublished e kwargs a w1 :
  Exists (fun f => apply_exit e f ≠ 0) (att_patches a) ->
  (finish_attempt e kwargs a w1).1 ≠ Return (Some true)
  /\ unpublished w1 (finish_attempt e kwargs a w1).2.
Proof.
  intros Hfail. unfold finish_attempt, mbind, M_bind, bind.
  pose proof (apply_all_nonzero e (att_patches a) w1 Hfail) as Hnz.
  pose proof (unpublished_apply_all w1 e 0 (att_patches a) w1 (unpublished_refl w1))
    as Hquiet.
  destruct (apply_all e 0 (att_patches a) w1) as [[rc|x] w2]; simpl in *; [|done].
  destruct (Z.eqb_spec rc 0) as [->|Hrc]; [done|]. simpl. split; [done|].
  exact Hquiet.
Qed.

(** ** C2 *)

(** A file of several mails of which the second does not apply: [git am]
    exits non-zero, the attempt returns without publishing, and the commit
    of the first mail of the failing file is on the branch, after the
    commit of the file before it. *)
Lemma failed_series_keeps_commits :
  (process_submission env_series_reject kwargs_ids idle_world).1 = Return None
  /\ apply_exit env_series_reject "v2-0001-a.patch" = 0
  /\ apply_exit env_series_reject "v2-0002-b.patch" = 128
  /\ branch (process_submission env_series_reject kwargs_ids idle_world).2
     = [PatchCommit "v2-0001-a.patch" "A. Hacker" "Fix v2-0001-a.patch";
        PatchCommit "v2-0002-b.patch" "A. Hacker" "Part one"].
Proof. by vm_compute. Qed.

(** C2, as the code has it.  Let an attempt reach the loop over its
    ordered files, one of which does not apply.  Then, however the attempt
    ends, it does not return [True], the remote is as before the attempt,
    and no program started in it commits the banner or pushes.  Let [f] be
    the first file whose apply step exits non-zero, the output of git for
    the files up to [f] being UTF-8.  Then the files before [f] and [f]
    itself are applied, in order, and no file after [f], and
    [process_submission] returns.  The commits on the branch are those of
    the files before [f], followed by those of the mails of [f] that
    [git am] had committed when it stopped: nothing removes them. *)
Theorem apply_stops_at_first_failure e kwargs w a w1 :
  start_attempt e kwargs w = (Return (Some a), w1) ->
  Exists (fun f => apply_exit e f ≠ 0) (att_patches a) ->
  ((process_submission e kwargs w).1 ≠ Return (Some true)
   /\ remote (process_submission e kwargs w).2 = remote w
   /\ exists cmds, ran (process_submission e kwargs w).2 = ran w ++ cmds
        /\ Forall (fun c => publishes c = false) cmds)
  /\ forall pre f post,
       att_patches a = pre ++ f :: post ->
       Forall (applies e) pre ->
       readable e f -> apply_exit e f ≠ 0 ->
       exists w', process_submission e kwargs w = (Return None, w')
         /\ ran w' = ran w1 ++ applied_commands e (pre ++ [f])
         /\ branch w' = flat_map (file_commits e) pre ++ partial_commits e f.
Proof.
  intros Hstart Hfail.
  pose proof (start_attempt_fresh e kwargs w) as Hfresh.
  pose proof (unpublished_start_attempt w e kwargs w (unpublished_refl w)) as Hquiet.
  rewrite Hstart in Hfresh, Hquiet.
  destruct Hfresh as [Hbranch Hindex]; [done|]. simpl in *.
  split.
  - destruct (finish_attempt_unpublished e kwargs a w1 Hfail) as [Hret Hlater].
    unfold process_submission, mbind, M_bind, bind. rewrite Hstart.
    split; [done|]. apply (unpublished_trans w w1 _ Hquiet Hlater).
  - intros pre f post Hfiles Hpre Hread Hf.
    eexists. split.
    { unfold process_submission, mbind, M_bind, bind. rewrite Hstart.
      apply (finish_attempt_rejected e kwargs a w1 pre f post Hfiles Hpre Hread Hf). }
    simpl. unfold applied_commands. rewrite flat_map_app, Hbranch. simpl.
    split; [by rewrite <- app_assoc|done].
Qed.

(** ** C5 *)

(** A mailbox file of two mails that applies: [git am] makes two commits,
    one for each mail. *)
Lemma series_makes_several_commits :
  is_raw_diff env_series "v2-0002-b.patch" = false
  /\ apply_one env_series "v2-0002-b.patch" idle_world
     = (Return 0, applied env_series ["v2-0002-b.patch"] idle_world)
  /\ branch (apply_one env_series "v2-0002-b.patch" idle_world).2
     = [PatchCommit "v2-0002-b.patch" "A. Hacker" "Part one";
        PatchCommit "v2-0002-b.patch" "A. Hacker" "Part two"].
Proof. by vm_compute. Qed.

(** C5, as the code has it.  A file of the ordered list from which
    [git mailinfo] extracts nothing (its output is empty once stripped and
    the message it wrote has size zero) is applied with
    [git apply --index], any other file with [git am], whether the step
    succeeds or not.  Over files that all apply, the loop leaves every raw
    diff in the index, without a commit of its own, and one commit for
    each mail of every mailbox file, in order, with the author and message
    of the mail: exactly one commit for a file of one mail.  When the
    attempt goes on to publish, the banner commit that follows is the one
    that holds the raw diffs. *)
Theorem raw_diff_or_mailbox_patch e w :
  (forall f, is_Some (msg_size e f) ->
     ran (apply_one e f w).2
     = ran w ++ [GitMailinfo f;
                 if decide (headerless e f) then GitApplyIndex f else GitAm f])
  /\ forall files,
       Forall (applies e) files ->
       exists w', apply_all e 0 files w = (Return 0, w')
         /\ branch w'
            = branch w ++ flat_map (fun f => if decide (headerless e f) then []
                                             else mail_commits f (mails e f)) files
         /\ index w' = index w ++ filter (headerless e) files
         /\ forall kwargs a,
              att_patches a = files ->
              is_Some (kwargs !! "commitfest_id") -> is_Some (kwargs !! "submission_id") ->
              is_Some (kwargs !! "name") -> is_Some (kwargs !! "authors") ->
              kwargs !! "conn" = None -> kwargs !! "patch_dir" = None ->
              kwargs !! "message_id" = None -> kwargs !! "base_branch" = None ->
              exit_code e (GitCommit (banner_of kwargs a)) = 0 ->
              exit_code e (GitPush GIT_REMOTE_NAME (att_branch a)) = 0 ->
              exists w'', finish_attempt e kwargs a w = (Return (Some true), w'')
                /\ branch w'' = branch w' ++ [BannerCommit (banner_of kwargs a) (index w')].
Proof.
  split.
  - intros f [size Hsize].
    unfold apply_one, getsize, report, decode.
    unfold run, write, mbind, M_bind, bind, mret, M_ret, ret, raise. simpl.
    rewrite Hsize, (raw_diff_test_spec e f size Hsize). unfold is_raw_diff.
    rewrite decide_bool_decide.
    destruct (bool_decide _); destruct (utf8_valid _); simpl;
      try destruct (negb _); simpl; by rewrite <- app_assoc.
  - intros files Hall. exists (applied e files w).
    split; [by apply apply_all_clean|]. simpl. split; [|split].
    + f_equal. apply flat_map_ext. intros f. unfold file_commits, is_raw_diff.
      by rewrite decide_bool_decide.
    + f_equal. unfold raw_diffs. apply where_filter. intros f. unfold is_raw_diff.
      apply bool_decide_eq_true.
    + intros kwargs a <- Hcf Hsub Hname Hauthors Hconn Hdir Hmid Hbase Hcommit Hpush.
      destruct (finish_attempt_published e kwargs a w Hall Hcf Hsub Hname Hauthors
                  Hconn Hdir Hmid Hbase Hcommit Hpush) as (w'' & Heq & Hbranch & _).
      exists w''. split; [done|]. rewrite Hbranch. simpl. by rewrite app_assoc.
Qed.

(** ** C7 *)

(** [update_submission] writes the four columns of the row it is given. *)
Lemma update_submission_sets now message_id commit_id db s :
  s ∈ submission_table db ->
  exists s', s' ∈ submission_table
                 (update_submission now message_id commit_id
                    (commitfest_id s) (submission_id s) db)
    /\ commitfest_id s' = commitfest_id s
    /\ submission_id s' = submission_id s
    /\ last_message_id s' = message_id
    /\ last_branch_message_id s' = message_id
    /\ last_branch_commit_id s' = commit_id
    /\ last_branch_time s' = Some now.
Proof.
  intros Hs. eexists. split.
  - unfold update_submission. simpl. apply list_elem_of_fmap_2, Hs.
  - simpl. rewrite bool_decide_eq_true_2 by done. done.
Qed.



(** C7, at a call that names the submission and its authors, in a world
    where every program succeeds: the branch is built and pushed and
    [process_submission] returns [True], yet the store is what it was.  The
    row keeps its old [last_branch_message_id], so the submission is stale
    still and is chosen again; [update_submission], which would have
    written the row, is never called.  From [maybe_process_one], which
    passes the two ids only, the template of [make_branch] finds no [name]
    and the attempt ends in [KeyError] before the banner commit. *)
Theorem pushed_branch_is_not_recorded :
  (process_submission env_clean kwargs_named idle_world).1 = Return (Some true)
  /\ length (remote (process_submission env_clean kwargs_named idle_world).2) = 1%nat
  /\ store (process_submission env_clean kwargs_named idle_world).2 = store idle_world
  /\ choose_submission_with_new_patch
       (store (process_submission env_clean kwargs_named idle_world).2)
     = (Some 38, Some 3633)
  /\ update_submission (clock env_clean) (Some "CA+new@example.org") (Some "0a1b2c3d")
       38 3633 (store idle_world)
     = Database [Submission 38 3633 "Needs review" (Some "CA+new@example.org")
                            (Some "CA+new@example.org") (Some "0a1b2c3d") (Some 5000)
                            (Some (clock env_clean))] []
  /\ (maybe_process_one env_clean idle_world).1 = Raise (KeyError "name").
Proof. by vm_compute. Qed.

(** ** C8 *)

(** The tick passes on whatever [process_submission] does. *)
Lemma maybe_process_one_passes e w cf sub :
  need_to_limit_rate (store w) = false ->
  choose_submission (clock e) (store w) = (cf, sub) ->
  truthy_id sub = true ->
  maybe_process_one e w
  = match process_submission e
            (<["submission_id" := of_id sub]> (<["commitfest_id" := of_id cf]> ∅)) w with
    | (Return _, w') => (Return tt, w')
    | (Raise x, w') => (Raise x, w')
    end.
Proof.
  intros Hgate Hchoose Htruthy.
  unfold maybe_process_one, mbind, M_bind, bind, read_store.
  rewrite Hgate, Hchoose, Htruthy. simpl.
  by destruct (process_submission _ _ w) as [[r|x] w'].
Qed.

Lemma maybe_process_one_store e w : store (maybe_process_one e w).2 = store w.
Proof.
  unfold maybe_process_one, mbind, M_bind, bind, read_store.
  destruct (negb _); [|done].
  destruct (choose_submission _ _) as [cf sub].
  destruct (truthy_id sub); [|done].
  pose proof (process_submission_store e
    (<["submission_id" := of_id sub]> (<["commitfest_id" := of_id cf]> ∅)) w) as Hst.
  by destruct (process_submission _ _ w) as [[r|x] w'].
Qed.

(** A tick in which the lone tarball of the newest message does not
    unpack: [tar] exits with 2, [check_call] raises, and the exception
    leaves [maybe_process_one]. *)
Lemma extract_error_leaves_the_tick :
  (maybe_process_one env_tarball idle_world).1
  = Raise (CalledProcessError 2 (Tar "v3.tar.gz")).
Proof. by vm_compute. Qed.

(** A call in which the remote refuses the push: [git push] exits with 1
    and the exception leaves [process_submission]. *)
Lemma push_error_leaves_process_submission :
  (process_submission env_push_refused kwargs_named idle_world).1
  = Raise (CalledProcessError 1 (GitPush "github" "commitfest/38/3633")).
Proof. by vm_compute. Qed.

(** A tick in which the second patch does not apply and [git am] prints
    a byte that is not UTF-8: decoding the output for patch.out raises,
    before [rcode] is read, and the exception leaves
    [maybe_process_one]. *)
Lemma undecodable_output_leaves_the_tick :
  (maybe_process_one env_latin1 idle_world).1
  = Raise (UnicodeDecodeError (GitAm "v2-0002-b.patch")).
Proof. by vm_compute. Qed.

(** C8, as the code has it.  Two errors are handled inside
    [process_submission], which returns [None] without raising: a
    submission with no thread, logged by one line before any program is
    started; and a file that does not apply, when the output of git for
    the files up to it is UTF-8: the output is in patch.out and on the
    console, followed by the line of the failure, with nothing pushed.
    When the output of the program that applies a file is not UTF-8,
    [UnicodeDecodeError] is raised instead, whatever the exit code.  A step
    run with [check_call] that exits non-zero raises [CalledProcessError].
    No handler stands between any of these and the caller of
    [maybe_process_one]: an exception passes every bind,
    [process_submission] ends as the first of its two halves that raises,
    and the tick ends as [process_submission] does. *)
Theorem handled_and_raised_errors :
  (forall e kwargs w cf sub u,
     kwargs !! "commitfest_id" = Some cf ->
     kwargs !! "submission_id" = Some sub ->
     thread_url_for e cf sub = Return u ->
     truthy_url u = false ->
     process_submission e kwargs w
     = (Return None,
        World (store w) (patch_dir w) (branch w) (index w) (remote w) (ran w)
              (journal w ++ [Info ("skipping submission " +:+ py_str sub
                                   +:+ " with no thread")])))
  /\ (forall e kwargs w a w1 pre f post,
        start_attempt e kwargs w = (Return (Some a), w1) ->
        att_patches a = pre ++ f :: post ->
        Forall (applies e) pre ->
        readable e f -> apply_exit e f ≠ 0 ->
        exists w', process_submission e kwargs w = (Return None, w')
          /\ journal w'
             = journal w1 ++ applied_output e (pre ++ [f])
               ++ [Printed ("we failed to apply the patches: ... "
                            +:+ att_commitfest_id a +:+ " " +:+ att_submission_id a)]
          /\ remote w' = remote w)
  /\ (forall e kwargs w a w1 pre f post,
        start_attempt e kwargs w = (Return (Some a), w1) ->
        att_patches a = pre ++ f :: post ->
        Forall (applies e) pre ->
        is_Some (msg_size e f) ->
        utf8_valid (chars (apply_output e f)) = false ->
        (process_submission e kwargs w).1
        = Raise (UnicodeDecodeError (apply_command e f)))
  /\ (forall e c w,
        exit_code e c ≠ 0 ->
        (check_call e c w).1 = Raise (CalledProcessError (exit_code e c) c))
  /\ (forall e kwargs w,
        process_submission e kwargs w
        = match start_attempt e kwargs w with
          | (Return (Some a), w1) => finish_attempt e kwargs a w1
          | (Return None, w1) => (Return None, w1)
          | (Raise x, w1) => (Raise x, w1)
          end)
  /\ (forall e w cf sub,
        need_to_limit_rate (store w) = false ->
        choose_submission (clock e) (store w) = (cf, sub) ->
        truthy_id sub = true ->
        maybe_process_one e w
        = match process_submission e
                  (<["submission_id" := of_id sub]> (<["commitfest_id" := of_id cf]> ∅)) w with
          | (Return _, w') => (Return tt, w')
          | (Raise x, w') => (Raise x, w')
          end)
  /\ (forall A B (m : M A) (k : A -> M B) w x w',
        m w = (Raise x, w') -> (m ≫= k) w = (Raise x, w')).
Proof.
  split; [|split; [|split; [|split; [|split; [|split]]]]].
  - intros e kwargs w cf sub u Hcf Hsub Hthread Hu.
    unfold process_submission, start_attempt, kwarg, lift, mbind, M_bind, bind.
    rewrite Hcf, Hsub. simpl. by rewrite Hthread, Hu.
  - intros e kwargs w a w1 pre f post Hstart Hfiles Hpre Hread Hf.
    destruct (process_submission_rejected e kwargs w a w1 pre f post
                Hstart Hfiles Hpre Hread Hf) as (Heq & Hremote).
    eexists. split; [exact Heq|]. simpl. split; [|done].
    unfold applied_output. by rewrite flat_map_app, <- !app_assoc.
  - intros e kwargs w a w1 pre f post Hstart Hfiles Hpre [size Hsize] Hutf.
    assert (~ applies e f) as Hf.
    { intros [[_ Hvalid] _]. congruence. }
    unfold process_submission, finish_attempt, mbind, M_bind, bind.
    rewrite Hstart, Hfiles.
    pose proof (apply_all_first e pre f post w1 Hpre Hf) as Hout.
    unfold apply_outcome in Hout. rewrite Hsize, Hutf in Hout.
    destruct (apply_all e 0 (pre ++ f :: post) w1) as [[rc|x] w2]; simpl in Hout;
      [done|]. simpl. congruence.
  - intros e c w Hrc. unfold check_call, run, mbind, M_bind, bind. simpl.
    apply Z.eqb_neq in Hrc. by rewrite Hrc.
  - intros e kwargs w. unfold process_submission, mbind, M_bind, bind.
    by destruct (start_attempt e kwargs w) as [[[a|]|x] w1].
  - apply maybe_process_one_passes.
  - intros A B m k w x w' Hm. unfold mbind, M_bind, bind. by rewrite Hm.
Qed.

(** ** The theorems at work *)

Lemma new_patch_oldest_first_witness :
  exists s, s ∈ submission_table (store busy_world) /\ stale s
    /\ choose_submission_with_new_patch (store busy_world) = ids_of s
    /\ (forall s', s' ∈ submission_table (store busy_world) -> stale s' ->
          nulls_last_le (last_email_time s) (last_email_time s'))
    /\ (forall s' t', s' ∈ submission_table (store busy_world) -> stale s' ->
          last_email_time s' = Some t' ->
          exists t, last_email_time s = Some t /\ t <= t').
Proof.
  apply (new_patch_oldest_first (store busy_world) stale_row).
  - simpl. left.
  - apply where_new_patch_stale. vm_compute. reflexivity.
Defined.

Lemma rate_gate_closed_witness :
  need_to_limit_rate (store busy_world) = true
  /\ maybe_process_one env_clean busy_world = (Return tt, busy_world).
Proof.
  apply (rate_gate_closed env_clean busy_world).
  vm_compute. discriminate.
Defined.

Lemma bitrot_fallback_witness :
  choose_submission (24 * one_hour) (Database [fresh_row] [])
  = choose_submission_without_new_patch (24 * one_hour) (Database [fresh_row] [])
  /\ choose_submission (24 * one_hour) (Database [fresh_row] []) = (Some 38, Some 3700).
Proof.
  destruct (bitrot_fallback (24 * one_hour) (Database [fresh_row] []))
    as (Hsame & Hbelow & _).
  - intros s Hs Hstale. simpl in Hs. apply list_elem_of_singleton in Hs as ->.
    apply where_new_patch_stale in Hstale. vm_compute in Hstale. discriminate.
  - split; [exact Hsame|].
    destruct Hbelow as (s & Hs & _ & Hret & _).
    + vm_compute. reflexivity.
    + simpl in Hs. apply list_elem_of_singleton in Hs as ->. exact Hret.
Defined.

Lemma tarball_must_be_sole_attachment_witness :
  get_latest_patches_from_thread_url mixed_page = (None, None)
  /\ get_latest_patches_from_thread_url tarball_note_page
     = (Some "CA+mix@example.org",
        Some ["https://www.postgresql.org/message-id/attachment/300/v3.tar.gz"]).
Proof.
  split.
  - apply (tarball_must_be_sole_attachment []
             (header_line "CA%2Bmix%40example.org" "CA+mix@example.org")
             "CA+mix@example.org"
             [attachment_line "300/v3.tar.gz"]
             (attachment_line "301/v3-fixup.patch")
             "https://www.postgresql.org/message-id/attachment/301/v3-fixup.patch"
             ["<p>see attached</p>"]).
    + vm_compute. reflexivity.
    + repeat constructor.
    + vm_compute. reflexivity.
    + repeat constructor.
    + vm_compute. reflexivity.
    + vm_compute. discriminate.
  - apply (tarball_must_be_sole_attachment []
             (header_line "CA%2Bmix%40example.org" "CA+mix@example.org")
             "CA+mix@example.org"
             []
             (attachment_line "300/v3.tar.gz")
             "https://www.postgresql.org/message-id/attachment/300/v3.tar.gz"
             [attachment_line "302/benchmark.txt"; "<p>see attached</p>"]).
    + vm_compute. reflexivity.
    + constructor.
    + vm_compute. reflexivity.
    + repeat constructor.
    + reflexivity.
Defined.

Lemma skipped_attachment_never_returned_witness :
  Forall (fun u => endswith u skipped_attachment = false)
         (default [] (get_latest_patches_from_thread_url (jabiru_line :: patch_page)).2)
  /\ accepted_attachment jabiru_line = None
  /\ scan_line scan_init jabiru_line = scan_header_only scan_init jabiru_line.
Proof.
  destruct (skipped_attachment_never_returned (jabiru_line :: patch_page))
    as [Hkept Hskip].
  split; [exact Hkept|].
  apply (Hskip scan_init jabiru_line
           "/message-id/attachment/400/jabiru_2022-03-28_20-25-16.tar.gz").
  - vm_compute. reflexivity.
  - vm_compute. reflexivity.
Defined.

Lemma apply_stops_at_first_failure_witness :
  ((process_submission env_series_reject kwargs_ids idle_world).1 ≠ Return (Some true)
   /\ remote (process_submission env_series_reject kwargs_ids idle_world).2
      = remote idle_world
   /\ exists cmds, ran (process_submission env_series_reject kwargs_ids idle_world).2
                   = ran idle_world ++ cmds
        /\ Forall (fun c => publishes c = false) cmds)
  /\ exists w', process_submission env_series_reject kwargs_ids idle_world = (Return None, w')
       /\ ran w' = ran (start_attempt env_series_reject kwargs_ids idle_world).2
                   ++ applied_commands env_series_reject
                        (["v2-0001-a.patch"] ++ ["v2-0002-b.patch"])
       /\ branch w' = flat_map (file_commits env_series_reject) ["v2-0001-a.patch"]
                      ++ partial_commits env_series_reject "v2-0002-b.patch".
Proof.
  destruct (apply_stops_at_first_failure env_series_reject kwargs_ids idle_world
              (Attempt "38" "3633" "0a1b2c3d" (Some "CA+new@example.org")
                       ["v2-0001-a.patch"; "v2-0002-b.patch"; "v2-0003-c.patch"]
                       "commitfest/38/3633")
              (start_attempt env_series_reject kwargs_ids idle_world).2)
    as [Hsafe Hstop].
  - vm_compute. reflexivity.
  - apply Exists_cons_tl, Exists_cons_hd. vm_compute. discriminate.
  - split; [exact Hsafe|].
    apply (Hstop ["v2-0001-a.patch"] "v2-0002-b.patch" ["v2-0003-c.patch"]).
    + reflexivity.
    + constructor; [|constructor].
      split; [split; [by eexists|]|]; vm_compute; reflexivity.
    + split; [by eexists|]. vm_compute. reflexivity.
    + vm_compute. discriminate.
Defined.

Lemma raw_diff_or_mailbox_patch_witness :
  exists w', apply_all env_series 0 ["fix.diff"; "v2-0001-a.patch"; "v2-0002-b.patch"]
                       idle_world = (Return 0, w')
    /\ branch w' = [PatchCommit "v2-0001-a.patch" "A. Hacker" "Fix v2-0001-a.patch";
                    PatchCommit "v2-0002-b.patch" "A. Hacker" "Part one";
                    PatchCommit "v2-0002-b.patch" "A. Hacker" "Part two"]
    /\ index w' = ["fix.diff"].
Proof.
  destruct (raw_diff_or_mailbox_patch env_series idle_world) as [_ Hall].
  destruct (Hall ["fix.diff"; "v2-0001-a.patch"; "v2-0002-b.patch"])
    as (w' & Heq & Hbranch & Hindex & _).
  - repeat (constructor;
            [split; [split; [by eexists|vm_compute; reflexivity]
                    |vm_compute; reflexivity]|]).
    constructor.
  - exists w'. split; [exact Heq|]. split.
    + rewrite Hbranch. vm_compute. reflexivity.
    + rewrite Hindex. vm_compute. reflexivity.
Defined.

Lemma handled_and_raised_errors_witness :
  process_submission env_no_thread kwargs_ids idle_world
  = (Return None,
     World (store idle_world) [] [] [] [] []
           [Info "skipping submission 3633 with no thread"])
  /\ (exists w', process_submission env_reject kwargs_ids idle_world = (Return None, w')
        /\ journal w'
           = journal (start_attempt env_reject kwargs_ids idle_world).2
             ++ applied_output env_reject (["v2-0001-a.patch"] ++ ["v2-0002-b.patch"])
             ++ [Printed "we failed to apply the patches: ... 38 3633"]
        /\ remote w' = remote idle_world)
  /\ (process_submission env_latin1 kwargs_ids idle_world).1
     = Raise (UnicodeDecodeError (apply_command env_latin1 "v2-0002-b.patch"))
  /\ (check_call env_tarball (Tar "v3.tar.gz") idle_world).1
     = Raise (CalledProcessError 2 (Tar "v3.tar.gz")).
Proof.
  destruct handled_and_raised_errors as (Hno_thread & Hreject & Hdecode & Hcheck & _).
  split; [|split; [|split]].
  - apply (Hno_thread env_no_thread kwargs_ids idle_world (PyInt 38) (PyInt 3633) None);
      reflexivity.
  - apply (Hreject env_reject kwargs_ids idle_world
             (Attempt "38" "3633" "0a1b2c3d" (Some "CA+new@example.org")
                      ["v2-0001-a.patch"; "v2-0002-b.patch"; "v2-0003-c.patch"]
                      "commitfest/38/3633")
             (start_attempt env_reject kwargs_ids idle_world).2
             ["v2-0001-a.patch"] "v2-0002-b.patch" ["v2-0003-c.patch"]).
    + vm_compute. reflexivity.
    + reflexivity.
    + constructor; [|constructor].
      split; [split; [by eexists|]|]; vm_compute; reflexivity.
    + split; [by eexists|]. vm_compute. reflexivity.
    + vm_compute. discriminate.
  - apply (Hdecode env_latin1 kwargs_ids idle_world
             (Attempt "38" "3633" "0a1b2c3d" (Some "CA+new@example.org")
                      ["v2-0001-a.patch"; "v2-0002-b.patch"; "v2-0003-c.patch"]
                      "commitfest/38/3633")
             (start_attempt env_latin1 kwargs_ids idle_world).2
             ["v2-0001-a.patch"] "v2-0002-b.patch" ["v2-0003-c.patch"]).
    + vm_compute. reflexivity.
    + reflexivity.
    + constructor; [|constructor].
      split; [split; [by eexists|]|]; vm_compute; reflexivity.
    + by eexists.
    + vm_compute. reflexivity.
  - apply (Hcheck env_tarball (Tar "v3.tar.gz") idle_world).
    vm_compute. discriminate.
Defined.

(** * Further properties *)

(** ** The scheduler *)

Lemma choose_new_patch_cases db :
  choose_submission_with_new_patch db = (None, None)
  \/ exists s, s ∈ submission_table db /\ stale s
       /\ choose_submission_with_new_patch db = ids_of s.
Proof.
  unfold choose_submission_with_new_patch. rewrite fetchone_limit_select.
  destruct (head _) as [s|] eqn:Hs; [right|by left].
  apply order_by_first in Hs as [Hs _]; [|apply _..].
  apply elem_of_where in Hs as [Hs Hw]. apply where_new_patch_stale in Hw.
  by exists s.
Qed.

Lemma choose_without_new_patch_cases now db :
  choose_submission_without_new_patch now db = (None, None)
  \/ exists s, s ∈ submission_table db /\ rebuildable s
       /\ choose_submission_without_new_patch now db = ids_of s.
Proof.
  unfold choose_submission_without_new_patch. cbv zeta.
  destruct (py_lt _ _); [|by left].
  rewrite fetchone_limit_select.
  destruct (head _) as [s|] eqn:Hs; [right|by left].
  apply order_by_first in Hs as [Hs _]; [|apply _..].
  apply elem_of_where in Hs as [Hs Hw]. apply where_active_rebuildable in Hw.
  by exists s.
Qed.

Lemma stale_rebuildable s : stale s -> rebuildable s.
Proof. intros (Hm & _ & Ha). by split. Qed.

Lemma choose_submission_cases now db :
  choose_submission now db = (None, None)
  \/ exists s, s ∈ submission_table db /\ rebuildable s
       /\ choose_submission now db = ids_of s.
Proof.
  unfold choose_submission.
  destruct (choose_new_patch_cases db) as [->|(s & Hs & Hst & ->)]; simpl.
  - apply choose_without_new_patch_cases.
  - destruct (negb (submission_id s =? 0)).
    + right. exists s. auto using stale_rebuildable.
    + apply choose_without_new_patch_cases.
Qed.

(** Whatever the store holds, [choose_submission] returns [(None, None)]
    or the two ids of a row of the table that is active and has a message:
    a submission that is committed, rejected, withdrawn or returned, or
    that never had a patch, is never chosen, by either path; and the pair
    is never half filled. *)
Theorem choose_submission_only_rebuildable now db :
  choose_submission now db = (None, None)
  \/ exists s, s ∈ submission_table db /\ rebuildable s
       /\ choose_submission now db = ids_of s.
Proof.
  destruct (choose_submission_cases now db) as [Hnone|(s & Hs & Hr & Hids)].
  - by left.
  - right. exists s. by split; [|split].
Qed.

(** After [update_submission], in whatever order the rows are then
    scanned: the ids of the rows are the same, every row with the given ids
    has the message id in both columns, the commit id and the time, every
    other row is kept as it is, the limit on builds in flight is as before,
    and the chooser of new patches never returns the given ids: the
    submission has left the queue of new patches, which is the loop the
    comment in the function is about. *)
Theorem update_submission_leaves_queue now message_id commit_id cf sub db db' :
  same_rows (update_submission now message_id commit_id cf sub db) db' ->
  select_ids (submission_table db') ≡ₚ select_ids (submission_table db)
  /\ (forall s', s' ∈ submission_table db' ->
        commitfest_id s' = cf -> submission_id s' = sub ->
        last_message_id s' = message_id /\ last_branch_message_id s' = message_id
        /\ last_branch_commit_id s' = commit_id /\ last_branch_time s' = Some now)
  /\ (forall s, s ∈ submission_table db ->
        ~ (commitfest_id s = cf /\ submission_id s = sub) ->
        s ∈ submission_table db')
  /\ need_to_limit_rate db' = need_to_limit_rate db
  /\ choose_submission_with_new_patch db' ≠ (Some cf, Some sub).
Proof.
  intros [Hrows Hbranches].
  assert (forall s', s' ∈ submission_table db' ->
            commitfest_id s' = cf -> submission_id s' = sub ->
            last_message_id s' = message_id /\ last_branch_message_id s' = message_id
            /\ last_branch_commit_id s' = commit_id /\ last_branch_time s' = Some now)
    as Hset.
  { intros s' Hs' Hcf Hsub. rewrite Hrows in Hs'.
    unfold update_submission in Hs'. simpl in Hs'.
    apply list_elem_of_fmap in Hs' as (s & -> & Hs).
    case_bool_decide as Hids; [done|].
    destruct Hids. by split. }
  split; [|split; [exact Hset|split; [|split]]].
  - unfold select_ids. rewrite Hrows. unfold update_submission. simpl.
    rewrite <- list_fmap_compose.
    erewrite list_fmap_ext; [reflexivity|]. intros i s _. simpl. by case_bool_decide.
  - intros s Hs Hids. rewrite Hrows. unfold update_submission. simpl.
    apply list_elem_of_fmap. exists s. split; [|done]. by rewrite bool_decide_eq_false_2.
  - unfold need_to_limit_rate, select_count, fetchone. simpl.
    rewrite !(where_filter _ (fun b => branch_status b = "testing"))
      by (intros b; apply bool_decide_eq_true).
    by rewrite Hbranches.
  - destruct (choose_new_patch_cases db')
      as [->|(s' & Hs' & (Hm & Hdiff & _) & ->)]; [done|].
    intros [= Hcf Hsub]. destruct (Hset s' Hs' Hcf Hsub) as (H1 & H2 & _).
    congruence.
Qed.

Lemma update_submission_leaves_queue_witness :
  choose_submission_with_new_patch
    (Database [older_stale_row;
               Submission 38 3633 "Needs review" (Some "CA+new@example.org")
                          (Some "CA+new@example.org") (Some "0a1b2c3d") (Some 5000)
                          (Some (24 * one_hour))]
              [])
  ≠ (Some 38, Some 3633).
Proof.
  apply (update_submission_leaves_queue (24 * one_hour) (Some "CA+new@example.org")
           (Some "0a1b2c3d") 38 3633 (Database [stale_row; older_stale_row] [])).
  split; [|reflexivity]. apply Permutation_swap.
Defined.

(** With no active submission that has a message (an empty table among
    them), a tick does nothing at all, whether or not a build is in
    flight. *)
Theorem idle_store_idle_tick e w :
  (forall s, s ∈ submission_table (store w) -> ~ rebuildable s) ->
  choose_submission (clock e) (store w) = (None, None)
  /\ maybe_process_one e w = (Return tt, w).
Proof.
  intros Hnone.
  assert (choose_submission (clock e) (store w) = (None, None)) as Hchoose.
  { destruct (choose_submission_cases (clock e) (store w))
      as [?|(s & Hs & Hr & _)]; [done|]. by destruct (Hnone s Hs). }
  split; [done|].
  unfold maybe_process_one, mbind, M_bind, bind, read_store. simpl.
  rewrite Hchoose. simpl. by destruct (negb _).
Qed.

Lemma idle_store_idle_tick_witness :
  choose_submission (clock env_clean) (store (world_of (Database [committed_row] [])))
  = (None, None)
  /\ maybe_process_one env_clean (world_of (Database [committed_row] []))
     = (Return tt, world_of (Database [committed_row] [])).
Proof.
  apply (idle_store_idle_tick env_clean (world_of (Database [committed_row] []))).
  intros s Hs. simpl in Hs. apply list_elem_of_singleton in Hs as ->.
  intros [_ Hactive]. vm_compute in Hactive.
  repeat (apply elem_of_cons in Hactive as [Hactive|Hactive]; [discriminate|]).
  by apply elem_of_nil in Hactive.
Defined.



(** ** The patch applier *)

(** How the loop over the files ends.  If every file applies, git's
    output being UTF-8 and every ./msg in place, it ends with [rcode]
    zero.  Otherwise it ends as the step of the first file that does not:
    with [OSError] when ./msg is not there to be measured, with
    [UnicodeDecodeError] when the output of the program that applies the
    file is not UTF-8, whatever its exit code, and else with the exit code
    of that program, which is not zero.  So a zero [rcode] means that every
    file applied, and the loop raises nothing but these two exceptions. *)
Theorem apply_loop_outcome e files w :
  (apply_all e 0 files w).1
  = match list_find (fun f => ~ applies e f) files with
    | None => Return 0
    | Some (_, f) => apply_outcome e f
    end
  /\ ((apply_all e 0 files w).1 = Return 0 <-> Forall (applies e) files)
  /\ forall x, (apply_all e 0 files w).1 = Raise x ->
       x = OSError "./msg" \/ exists f, f ∈ files /\ x = UnicodeDecodeError (apply_command e f).
Proof.
  destruct (first_that_stops e files)
    as [Hall|(pre & f & post & -> & Hpre & Hf & Hfind)].
  - rewrite (apply_all_clean e files w Hall). simpl.
    assert (list_find (fun f => ~ applies e f) files = None) as ->.
    { apply list_find_None. eapply Forall_impl; [exact Hall|]. tauto. }
    split; [done|]. split; [done|]. by intros x.
  - rewrite Hfind, (apply_all_first e pre f post w Hpre Hf).
    pose proof (apply_outcome_stops e f Hf) as Hstop.
    split; [done|]. split; [split|].
    + intros Hzero. rewrite Hzero in Hstop. by destruct Hstop.
    + intros Hall. apply Forall_app in Hall as [_ Hall].
      apply Forall_cons in Hall as [Hall _]. done.
    + intros x Hx. rewrite Hx in Hstop. destruct Hstop as [->| ->]; [by left|].
      right. exists f. split; [|done]. apply elem_of_app. right. left.
Qed.

(** Names that end in none of the archive and compression suffixes pass
    the second loop untouched: no program is started and the world is as
    before. *)
Theorem decompress_leaves_plain_files e patches w :
  Forall plain_file patches ->
  decompress e patches w = (Return tt, w).
Proof.
  intros Hall. induction Hall as [|patch patches (Htgz & Hbz & Hzip & Hgz) _ IH]; [done|].
  simpl. rewrite Htgz, Hbz, Hzip, Hgz.
  assert (endswith patch ".tar.gz" = false) as ->.
  { unfold endswith in *. apply bool_decide_eq_false. apply bool_decide_eq_false in Hgz.
    intros Hsuf. apply Hgz. etrans; [|exact Hsuf]. by exists (chars ".tar"). }
  simpl. unfold mbind, M_bind, bind. simpl. exact IH.
Qed.

Lemma decompress_leaves_plain_files_witness :
  decompress env_reject ["v2-0002-b.patch"; "v2-0001-a.diff"] idle_world
  = (Return tt, idle_world).
Proof.
  apply (decompress_leaves_plain_files env_reject
           ["v2-0002-b.patch"; "v2-0001-a.diff"] idle_world).
  repeat constructor.
Defined.

(** Nothing in a tick writes the store: however [maybe_process_one] or
    [process_submission] ends, by return or by exception, the tables are
    what they were. *)
Theorem attempt_never_writes_store e kwargs w :
  store (maybe_process_one e w).2 = store w
  /\ store (process_submission e kwargs w).2 = store w.
Proof. split; [apply maybe_process_one_store|apply process_submission_store]. Qed.

(** The remote receives a branch exactly when [process_submission] returns
    [True]: then one push was added, of a branch whose last commit is the
    banner commit; on every other return and on every exception the remote
    is what it was. *)
Theorem push_exactly_when_true e kwargs w :
  match process_submission e kwargs w with
  | (Return (Some true), w') =>
      exists name commits msg staged,
        remote w' = remote w ++ [(name, commits ++ [BannerCommit msg staged])]
        /\ branch w' = commits ++ [BannerCommit msg staged]
  | (_, w') => remote w' = remote w
  end.
Proof.
  unfold process_submission, mbind, M_bind, bind.
  pose proof (unpublished_start_attempt w e kwargs w (unpublished_refl w)) as [Hstart _].
  destruct (start_attempt e kwargs w) as [[[a|]|x] w1]; simpl in Hstart; [|done..].
  unfold finish_attempt, mbind, M_bind, bind.
  pose proof (unpublished_apply_all w1 e 0 (att_patches a) w1 (unpublished_refl w1))
    as [Happly _].
  destruct (apply_all e 0 (att_patches a) w1) as [[rc|x] w2]; simpl in Happly;
    [|congruence].
  destruct (negb (rc =? 0)); simpl; [congruence|].
  destruct (bool_decide (is_Some (kwargs !! "message_id") \/ _)); simpl; [congruence|].
  destruct (bool_decide (is_Some (kwargs !! "conn") \/ _)); simpl; [congruence|].
  unfold make_branch, kwarg, mbind, M_bind, bind.
  repeat match goal with
         | |- context [match ?m !! ?k with _ => _ end] =>
             destruct (m !! k); simpl; [|congruence]
         end.
  unfold check_call, run, write, mbind, M_bind, bind, mret, M_ret, ret, raise, effect.
  simpl.
  destruct (exit_code e (GitCommit _) =? 0); simpl; [|congruence].
  destruct (exit_code e (GitPush _ _) =? 0); simpl.
  - eexists _, (branch w2), _, (index w2). split; [|done].
    rewrite Happly, Hstart. reflexivity.
  - congruence.
Qed.

(** An attempt started by the scheduler whose files all apply never
    publishes: [maybe_process_one] passes the two ids only, the template of
    [make_branch] finds no [name], and the tick ends in [KeyError] with the
    commits of the mails of the patches on the local branch, no banner
    commit and no push. *)
Theorem scheduled_attempt_lacks_name e w cf sub a w1 :
  need_to_limit_rate (store w) = false ->
  choose_submission (clock e) (store w) = (Some cf, Some sub) ->
  sub ≠ 0 ->
  start_attempt e (<["submission_id" := PyInt sub]> (<["commitfest_id" := PyInt cf]> ∅)) w
  = (Return (Some a), w1) ->
  Forall (applies e) (att_patches a) ->
  exists w', maybe_process_one e w = (Raise (KeyError "name"), w')
    /\ branch w' = flat_map (file_commits e) (att_patches a)
    /\ index w' = raw_diffs e (att_patches a)
    /\ remote w' = remote w
    /\ ran w' = ran w1 ++ applied_commands e (att_patches a).
Proof.
  intros Hgate Hchoose Hsub Hstart Hclean.
  set (kwargs := <["submission_id" := PyInt sub]> (<["commitfest_id" := PyInt cf]> ∅))
    in *.
  pose proof (start_attempt_fresh e kwargs w) as Hfresh.
  pose proof (unpublished_start_attempt w e kwargs w (unpublished_refl w)) as [Hremote _].
  rewrite Hstart in Hfresh, Hremote. destruct Hfresh as [Hbranch Hindex]; [done|].
  simpl in Hremote.
  exists (applied e (att_patches a) w1). split.
  - rewrite (maybe_process_one_passes e w (Some cf) (Some sub) Hgate Hchoose)
      by (simpl; by destruct (Z.eqb_spec sub 0)).
    simpl. fold kwargs. unfold process_submission, mbind, M_bind, bind. rewrite Hstart.
    unfold finish_attempt, mbind, M_bind, bind.
    rewrite (apply_all_clean e (att_patches a) w1 Hclean). simpl.
    destruct (caller_kwargs_accepted kwargs) as [-> ->]; [done..|].
    subst kwargs. unfold make_branch, kwarg, mbind, M_bind, bind.
    rewrite !(lookup_insert_ne _ "base_branch"), !(lookup_insert_ne _ "message_id") by done.
    rewrite (lookup_insert_ne _ "submission_id" "commitfest_id") by done.
    rewrite !lookup_insert_eq. simpl.
    rewrite !lookup_insert_ne, lookup_empty by done. done.
  - simpl. by rewrite Hbranch, Hindex.
Qed.

Lemma scheduled_attempt_lacks_name_witness :
  exists w', maybe_process_one env_series idle_world = (Raise (KeyError "name"), w')
    /\ branch w'
       = flat_map (file_commits env_series)
                  ["v2-0001-a.patch"; "v2-0002-b.patch"; "v2-0003-c.patch"]
    /\ index w'
       = raw_diffs env_series ["v2-0001-a.patch"; "v2-0002-b.patch"; "v2-0003-c.patch"]
    /\ remote w' = remote idle_world
    /\ ran w' = ran (start_attempt env_series kwargs_ids idle_world).2
                ++ applied_commands env_series
                     ["v2-0001-a.patch"; "v2-0002-b.patch"; "v2-0003-c.patch"].
Proof.
  apply (scheduled_attempt_lacks_name env_series idle_world 38 3633
           (Attempt "38" "3633" "0a1b2c3d" (Some "CA+new@example.org")
                    ["v2-0001-a.patch"; "v2-0002-b.patch"; "v2-0003-c.patch"]
                    "commitfest/38/3633")
           (start_attempt env_series kwargs_ids idle_world).2).
  - vm_compute. reflexivity.
  - vm_compute. reflexivity.
  - discriminate.
  - vm_compute. reflexivity.
  - repeat (constructor;
            [split; [split; [by eexists|vm_compute; reflexivity]
                    |vm_compute; reflexivity]|]).
    constructor.
Defined.

(** When the resolver gives up on a message (it returns no attachment
    list, as for a tarball mixed with other attachments), the attempt ends
    in the [TypeError] of the loop over [None]: the tree was pulled and the
    commit id read, but nothing was fetched, no branch was checked out and
    nothing was pushed. *)
Theorem unresolved_message_raises e kwargs w cf sub url lines :
  kwargs !! "commitfest_id" = Some (PyInt cf) ->
  kwargs !! "submission_id" = Some (PyInt sub) ->
  thread_url_for e (PyInt cf) (PyInt sub) = Return (Some url) ->
  url ≠ "" ->
  exit_code e GitPull = 0 ->
  exit_code e GitRevList = 0 ->
  thread_lines e url = Return lines ->
  (get_latest_patches_from_thread_url lines).2 = None ->
  exists w', process_submission e kwargs w
             = (Raise (TypeError "'NoneType' object is not iterable"), w')
    /\ ran w' = ran w ++ [GitPull; GitRevList]
    /\ patch_dir w' = []
    /\ remote w' = remote w.
Proof.
  intros Hcf Hsub Hthread Hurl Hpull Hrev Hlines Hnone.
  unfold process_submission, start_attempt, kwarg, lift, percent_d,
    update_patchbase_tree, get_commit_id, check_call, run, write, effect,
    mbind, M_bind, bind, mret, M_ret, ret, raise.
  rewrite Hcf, Hsub. simpl. rewrite Hthread. simpl.
  unfold truthy_str. rewrite bool_decide_eq_false_2 by done. simpl.
  rewrite Hpull, Hrev. simpl. rewrite Hlines. simpl.
  destruct (get_latest_patches_from_thread_url lines) as [mid urls].
  simpl in Hnone. subst urls. simpl.
  eexists. split; [reflexivity|]. simpl. by rewrite <- app_assoc.
Qed.

Lemma unresolved_message_raises_witness :
  exists w', process_submission env_mixed kwargs_ids idle_world
             = (Raise (TypeError "'NoneType' object is not iterable"), w')
    /\ ran w' = ran idle_world ++ [GitPull; GitRevList]
    /\ patch_dir w' = []
    /\ remote w' = remote idle_world.
Proof.
  apply (unresolved_message_raises env_mixed kwargs_ids idle_world 38 3633
           "https://www.postgresql.org/message-id/flat/CA%2Bold%40example.org"
           mixed_page).
  - reflexivity.
  - reflexivity.
  - reflexivity.
  - discriminate.
  - reflexivity.
  - reflexivity.
  - reflexivity.
  - vm_compute. reflexivity.
Defined.

(** The files of an attempt are the globbed names of its working
    directory, sorted. *)
Lemma start_attempt_patches e kwargs :
  returns (start_attempt e kwargs)
          (fun r w' => forall a, r = Some a ->
             att_patches a
             = merge_sort String.le (glob_star ".diff" (patch_dir w')
                                     ++ glob_star ".patch" (patch_dir w'))).
Proof.
  unfold start_attempt.
  repeat lazymatch goal with
  | |- returns (mbind _ listdir) _ => fail
  | |- returns (mbind _ _) _ => apply returns_bind; intros ?
  | |- returns (if ?b then _ else _) _ => destruct b
  | |- returns (match ?x with _ => _ end) _ => destruct x
  | |- returns (raise _) _ => apply returns_raise
  end.
  - by intros w.
  - intros w. unfold listdir, check_call, run, write, effect, mbind, M_bind, bind,
      mret, M_ret, ret, raise. simpl.
    destruct (exit_code e (GitCheckout _) =? 0); simpl; [|done].
    by intros a' [= <-].
Qed.

Lemma glob_star_spec ext files f :
  f ∈ glob_star ext files
  <-> f ∈ files /\ endswith f ext = true /\ String.prefix "." f = false.
Proof.
  unfold glob_star. rewrite elem_of_where, andb_true_iff, negb_true_iff. tauto.
Qed.

Lemma glob_star_Permutation ext files files' :
  files ≡ₚ files' -> glob_star ext files ≡ₚ glob_star ext files'.
Proof.
  intros Hperm. unfold glob_star.
  rewrite !(where_filter _ (fun f => endswith f ext && negb (String.prefix "." f) = true))
    by done.
  by rewrite Hperm.
Qed.

(** The files an attempt applies are exactly the names of its working
    directory that end in .diff or .patch and do not begin with a dot;
    they come sorted by name, whatever the order in which the directory
    lists them. *)
Theorem attempt_applies_sorted_patches e kwargs w a w1 :
  start_attempt e kwargs w = (Return (Some a), w1) ->
  Sorted String.le (att_patches a)
  /\ (forall f, f ∈ att_patches a <-> f ∈ patch_dir w1 /\ globbed f)
  /\ forall files', files' ≡ₚ patch_dir w1 ->
       att_patches a
       = merge_sort String.le (glob_star ".diff" files' ++ glob_star ".patch" files').
Proof.
  intros Hstart. pose proof (start_attempt_patches e kwargs w) as Hfiles.
  rewrite Hstart in Hfiles. specialize (Hfiles a eq_refl).
  split; [|split].
  - rewrite Hfiles. apply (Sorted_merge_sort String.le).
  - intros f. rewrite Hfiles, merge_sort_Permutation, elem_of_app, !glob_star_spec.
    unfold globbed. tauto.
  - intros files' Hperm. rewrite Hfiles. apply application_order_is_sorted.
    by rewrite !(glob_star_Permutation _ files' (patch_dir w1)).
Qed.

Lemma attempt_applies_sorted_patches_witness :
  Sorted String.le ["v2-0001-a.patch"; "v2-0002-b.patch"; "v2-0003-c.patch"]
  /\ (forall f, f ∈ ["v2-0001-a.patch"; "v2-0002-b.patch"; "v2-0003-c.patch"]
        <-> f ∈ patch_dir (start_attempt env_clean kwargs_ids idle_world).2 /\ globbed f)
  /\ forall files', files' ≡ₚ patch_dir (start_attempt env_clean kwargs_ids idle_world).2 ->
       ["v2-0001-a.patch"; "v2-0002-b.patch"; "v2-0003-c.patch"]
       = merge_sort String.le (glob_star ".diff" files' ++ glob_star ".patch" files').
Proof.
  apply (attempt_applies_sorted_patches env_clean kwargs_ids idle_world
           (Attempt "38" "3633" "0a1b2c3d" (Some "CA+new@example.org")
                    ["v2-0001-a.patch"; "v2-0002-b.patch"; "v2-0003-c.patch"]
                    "commitfest/38/3633")
           (start_attempt env_clean kwargs_ids idle_world).2).
  vm_compute. reflexivity.
Defined.

(** ** The thread resolver, further *)

Lemma span_unquoted_spec s body tail :
  span_unquoted s = (body, tail) -> s = body ++ tail /\ (dq ∉ body).
Proof.
  revert body tail. induction s as [|c s IH]; intros body tail; simpl.
  - intros [= <- <-]. split; [done|]. apply not_elem_of_nil.
  - destruct (decide (c = dq)) as [->|Hc].
    + intros [= <- <-]. split; [done|]. apply not_elem_of_nil.
    + destruct (span_unquoted s) as [run rest]. intros [= <- <-].
      destruct (IH run rest eq_refl) as [-> Hrun]. split; [done|].
      rewrite not_elem_of_cons. split; [congruence|done].
Qed.

(** What the attachment pattern lets through. *)
Lemma attachment_match_shape s g :
  attachment_match_here s = Some g ->
  exists body, g = attachment_prefix +:+ of_chars body /\ (dq ∉ body)
    /\ exists alt, alt ∈ attachment_suffixes
         /\ endswith (of_chars body) ("." +:+ alt) = true.
Proof.
  unfold attachment_match_here. intros Hm.
  destruct (strip_literal _ s) as [rest|]; [|done].
  cbn [mbind option_bind] in Hm.
  destruct (span_unquoted rest) as [body tail] eqn:Hspan.
  destruct (strip_literal (dq :: chars ">") tail); [|done].
  cbn [mbind option_bind] in Hm.
  destruct (existsb _ _) eqn:Hex; [|done].
  injection Hm as <-. exists body. split; [done|].
  split; [by apply span_unquoted_spec in Hspan as [_ ?]|].
  apply existsb_exists in Hex as (alt & Halt & Hends).
  exists alt. by rewrite list_elem_of_In.
Qed.

Lemma accepted_attachment_url line u :
  accepted_attachment line = Some u -> attachment_url u.
Proof.
  unfold accepted_attachment.
  destruct (attachment_href line) as [g|] eqn:Hg; [|done].
  destruct (negb _); [|done]. intros [= <-].
  apply search_some in Hg as [s' Hm].
  apply attachment_match_shape in Hm as (body & -> & Hq & Halt).
  by exists body.
Qed.

(** Whatever the page, every URL that resolution returns is an attachment
    URL of the archive with one of the seven suffixes of the pattern, and
    a list of more than one URL holds no tarball. *)
Theorem resolved_urls_are_attachments lines :
  Forall attachment_url (default [] (get_latest_patches_from_thread_url lines).2)
  /\ ((1 < length (default [] (get_latest_patches_from_thread_url lines).2))%nat ->
      Forall (fun u => is_tarball u = false)
             (default [] (get_latest_patches_from_thread_url lines).2)).
Proof.
  unfold get_latest_patches_from_thread_url.
  destruct (existsb is_tarball _) eqn:Htar; simpl.
  - destruct (1 <? _) eqn:Hlen; simpl.
    + split; [constructor|]. simpl. lia.
    + split.
      * apply (scan_lines_kept _ lines scan_init); [|constructor..].
        apply accepted_attachment_url.
      * apply Z.ltb_ge in Hlen. lia.
  - split.
    + apply (scan_lines_kept _ lines scan_init); [|constructor..].
      apply accepted_attachment_url.
    + intros _. apply Forall_forall. intros u Hu.
      destruct (is_tarball u) eqn:Hu'; [|done].
      assert (existsb is_tarball (selected_message_attachments (scan_lines lines)) = true)
        as Hex; [|congruence].
      apply existsb_exists. exists u. by rewrite <- list_elem_of_In.
Qed.

(** On any page whose last accepted attachment is on the line [last], in
    the message of header [m], resolution returns [m] and the URLs of all
    accepted attachments of that message, in the order of the page,
    provided they hold no tarball or are a single one.  The lines of the
    message may hold anything but a header; older messages, the messages
    that follow and attachments that are not accepted do not count. *)
Theorem newest_message_is_resolved pre header m body last u post :
  message_id_of_line header = Some m ->
  Forall (fun line => message_id_of_line line = None) body ->
  accepted_attachment last = Some u ->
  Forall (fun line => accepted_attachment line = None) post ->
  existsb is_tarball (accepted_attachments body ++ [u]) = false
  \/ accepted_attachments body = [] ->
  get_latest_patches_from_thread_url (pre ++ header :: body ++ last :: post)
  = (Some m, Some (accepted_attachments body ++ [u])).
Proof.
  intros Hm Hbody Hlast Hpost Hok. unfold get_latest_patches_from_thread_url.
  destruct (scan_newest_message pre header m body last u post Hm Hbody Hlast Hpost)
    as [-> ->].
  destruct Hok as [->| ->]; [done|]. simpl. by rewrite andb_false_r.
Qed.

Lemma newest_message_is_resolved_witness :
  get_latest_patches_from_thread_url
    ([ "<h1>Re: a thing</h1>";
       header_line "CA%2Bold%40example.org" "CA+old@example.org";
       attachment_line "100/v1-0001-a.patch" ]
     ++ header_line "CA%2Bnew%40example.org" "CA+new@example.org"
     :: [ "<p>Here is version 2.</p>";
          attachment_line "201/v2-0002-b.patch";
          jabiru_line;
          attachment_line "200/v2-0001-a.patch";
          attachment_line "203/notes.txt" ]
     ++ attachment_line "202/v2-0003-c.patch"
     :: [ "<p>Thanks</p>";
          header_line "CA%2Breply%40example.org" "CA+reply@example.org";
          "<p>looks good to me</p>" ])
  = (Some "CA+new@example.org",
     Some (accepted_attachments
             [ "<p>Here is version 2.</p>";
               attachment_line "201/v2-0002-b.patch";
               jabiru_line;
               attachment_line "200/v2-0001-a.patch";
               attachment_line "203/notes.txt" ]
           ++ ["https://www.postgresql.org/message-id/attachment/202/v2-0003-c.patch"])).
Proof.
  apply (newest_message_is_resolved
           [ "<h1>Re: a thing</h1>";
             header_line "CA%2Bold%40example.org" "CA+old@example.org";
             attachment_line "100/v1-0001-a.patch" ]
           (header_line "CA%2Bnew%40example.org" "CA+new@example.org")
           "CA+new@example.org"
           [ "<p>Here is version 2.</p>";
             attachment_line "201/v2-0002-b.patch";
             jabiru_line;
             attachment_line "200/v2-0001-a.patch";
             attachment_line "203/notes.txt" ]
           (attachment_line "202/v2-0003-c.patch")
           "https://www.postgresql.org/message-id/attachment/202/v2-0003-c.patch"
           [ "<p>Thanks</p>";
             header_line "CA%2Breply%40example.org" "CA+reply@example.org";
             "<p>looks good to me</p>" ]).
  - vm_compute. reflexivity.
  - repeat constructor.
  - vm_compute. reflexivity.
  - repeat constructor.
  - left. vm_compute. reflexivity.
Defined.

(** Attachments that come before any message header are resolved without
    a message id: on a page whose last accepted attachment has no header
    before it, resolution returns [None] for the id together with the
    accepted attachments up to that line, in the order of the page, when
    they hold no tarball or are a single one. *)
Theorem attachments_before_any_header body last u post :
  Forall (fun line => message_id_of_line line = None) body ->
  accepted_attachment last = Some u ->
  Forall (fun line => accepted_attachment line = None) post ->
  existsb is_tarball (accepted_attachments body ++ [u]) = false
  \/ accepted_attachments body = [] ->
  get_latest_patches_from_thread_url (body ++ last :: post)
  = (None, Some (accepted_attachments body ++ [u])).
Proof.
  intros Hbody Hlast Hpost Hok. unfold get_latest_patches_from_thread_url.
  destruct (scan_headless_message body last u post Hbody Hlast Hpost) as [-> ->].
  destruct Hok as [->| ->]; [done|]. simpl. by rewrite andb_false_r.
Qed.

Lemma attachments_before_any_header_witness :
  get_latest_patches_from_thread_url
    ([ "<h1>Re: a thing</h1>"; attachment_line "100/v1-0001-a.patch" ]
     ++ attachment_line "101/v1-0002-b.diff"
     :: [ header_line "CA%2Breply%40example.org" "CA+reply@example.org" ])
  = (None,
     Some (accepted_attachments
             [ "<h1>Re: a thing</h1>"; attachment_line "100/v1-0001-a.patch" ]
           ++ ["https://www.postgresql.org/message-id/attachment/101/v1-0002-b.diff"])).
Proof.
  apply (attachments_before_any_header
           [ "<h1>Re: a thing</h1>"; attachment_line "100/v1-0001-a.patch" ]
           (attachment_line "101/v1-0002-b.diff")
           "https://www.postgresql.org/message-id/attachment/101/v1-0002-b.diff"
           [ header_line "CA%2Breply%40example.org" "CA+reply@example.org" ]).
  - repeat constructor.
  - vm_compute. reflexivity.
  - repeat constructor.
  - left. vm_compute. reflexivity.
Defined.

(** On a page without any accepted attachment (no attachment link, or only
    links with other suffixes or to the skipped file) resolution returns
    no message id and the empty list, not [None]: the caller goes on with
    no file to apply. *)
Theorem no_attachment_resolves_to_empty lines :
  Forall (fun line => accepted_attachment line = None) lines ->
  get_latest_patches_from_thread_url lines = (None, Some []).
Proof.
  intros Hnone. unfold get_latest_patches_from_thread_url, scan_lines.
  by destruct (scan_other_lines lines scan_init Hnone) as [-> ->].
Qed.

Lemma no_attachment_resolves_to_empty_witness :
  get_latest_patches_from_thread_url chat_page = (None, Some []).
Proof.
  apply (no_attachment_resolves_to_empty chat_page).
  repeat constructor; vm_compute; reflexivity.
Defined.

(** *** The name a fetched attachment is saved under *)

Lemma cut_at_absent stop s : stop ∉ s -> cut_at stop s = s.
Proof.
  induction s as [|c s IH]; [done|]. rewrite not_elem_of_cons. intros [Hc Hs].
  simpl. rewrite decide_False by done. by rewrite IH.
Qed.

Lemma last_segment_whole pre name :
  "/"%char ∉ name -> last_segment (pre ++ name) name = pre ++ name.
Proof.
  revert pre. induction name as [|c name IH]; intros pre; [done|].
  rewrite not_elem_of_cons. intros [Hc Hname]. simpl.
  rewrite decide_False by done.
  replace (pre ++ c :: name) with ((pre ++ [c]) ++ name) by (by rewrite <- app_assoc).
  by apply IH.
Qed.

Lemma last_segment_after_slash acc dir name :
  "/"%char ∉ name -> last_segment acc (dir ++ "/"%char :: name) = name.
Proof.
  intros Hname. revert acc. induction dir as [|c dir IH]; intros acc; simpl.
  - apply (last_segment_whole [] name Hname).
  - destruct (decide (c = "/"%char)); apply IH.
Qed.

(** An attachment of the archive is saved under the last segment of its
    URL: for a URL made of the site, the attachment path, any directories
    and a name, the file name computed from it is that name (the name free
    of slash and semicolon, and the URL free of the characters that start a
    query or a fragment or that URL parsing drops). *)
Theorem attachment_saved_under_its_name dir name :
  url_plain dir -> segment_plain name ->
  url_basename ("https://www.postgresql.org/message-id/attachment" +:+ dir
                +:+ "/" +:+ name)
  = name.
Proof.
  intros Hdir [Hname Hseg]. unfold url_basename.
  rewrite !chars_app.
  change (chars "/" ++ chars name) with ("/"%char :: chars name).
  unfold url_plain in *. rewrite Forall_forall in Hdir, Hname, Hseg.
  assert (forall c, c ∈ ["#"; "?"]%char ->
            c ∉ chars "https://www.postgresql.org/message-id/attachment"
                ++ chars dir ++ "/"%char :: chars name) as Hplain.
  { intros c Hc.
    assert (c ∈ ["#"; "?"; "009"; "010"; "013"]%char) as Hspecial.
    { apply elem_of_cons in Hc as [->|Hc]; [by left|].
      apply list_elem_of_singleton in Hc as ->. by right; left. }
    rewrite !not_elem_of_app, not_elem_of_cons.
    split; [|split; [|split]].
    - apply elem_of_cons in Hc as [->|Hc];
        [|apply list_elem_of_singleton in Hc as ->];
        apply (bool_decide_eq_false_1 _); by vm_compute.
    - intros Hin. by apply (Hdir c Hin).
    - apply elem_of_cons in Hc as [->|Hc];
        [|apply list_elem_of_singleton in Hc as ->]; discriminate.
    - intros Hin. by apply (Hname c Hin). }
  rewrite (cut_at_absent "#"%char) by (apply Hplain; by left).
  rewrite (cut_at_absent "?"%char) by (apply Hplain; by right; left).
  rewrite app_assoc.
  rewrite last_segment_after_slash.
  - rewrite cut_at_absent; [apply String.string_of_list_ascii_of_string|].
    intros Hin. apply (Hseg _ Hin). by right; left.
  - intros Hin. apply (Hseg _ Hin). by left.
Qed.

Lemma attachment_saved_under_its_name_witness :
  url_basename ("https://www.postgresql.org/message-id/attachment" +:+ "/201"
                +:+ "/" +:+ "v2-0002-b.patch")
  = "v2-0002-b.patch".
Proof.
  apply (attachment_saved_under_its_name "/201" "v2-0002-b.patch").
  - unfold url_plain. apply (bool_decide_unpack _). vm_compute. reflexivity.
  - unfold segment_plain, url_plain.
    split; apply (bool_decide_unpack _); vm_compute; reflexivity.
Defined.

(** ** The commitfest pages *)

Lemma int_of_digits_nonneg s : 0 <= int_of_digits s.
Proof.
  unfold int_of_digits.
  assert (forall acc, 0 <= acc ->
            0 <= fold_left (fun acc c =>
                              10 * acc + Z.of_nat (default 0%nat (Ascii.is_nat c)))
                           s acc) as Hfold.
  { induction s as [|c s IH]; intros acc Hacc; [done|]. simpl. apply IH. lia. }
  apply Hfold. lia.
Qed.

Lemma current_commitfest_state s id state :
  current_commitfest_match_here s = Some (id, state) ->
  state = "Open" \/ state = "In Progress".
Proof.
  unfold current_commitfest_match_here. intros Hm.
  repeat match type of Hm with
         | context [mbind _ ?o] =>
             destruct o; cbn [mbind option_bind] in Hm; [|done]
         | context [span is_digit ?r] => destruct (span is_digit r)
         | context [decide ?P] => destruct (decide P); [done|]
         end.
  destruct (strip_literal (chars "Open ") _); [injection Hm as <- <-; by left|].
  destruct (strip_literal (chars "In Progress ") _); [|done].
  injection Hm as <- <-. by right.
Qed.

(** [get_current_commitfest_id] returns the id of the last line of the
    page that names a commitfest as Open or In Progress, a number that is
    not negative; when no line does, it raises its exception. *)
Theorem current_commitfest_is_last_match lines :
  match last (current_commitfest_matches lines) with
  | Some (id, state) =>
      get_current_commitfest_id lines = Got (int_of_digits (chars id))
      /\ 0 <= int_of_digits (chars id)
      /\ (state = "Open" \/ state = "In Progress")
  | None =>
      get_current_commitfest_id lines
      = RpcException "Could not determine the current Commitfest ID"
  end.
Proof.
  unfold get_current_commitfest_id, current_commitfest_matches.
  assert (forall acc,
    fold_left (fun result line =>
                 match search current_commitfest_match_here (chars line) with
                 | Some (commitfest_id, state) => Some (int_of_digits (chars commitfest_id))
                 | None => result
                 end) lines acc
    = match last (omap (fun line => search current_commitfest_match_here (chars line))
                       lines) with
      | Some (id, _) => Some (int_of_digits (chars id))
      | None => acc
      end) as Hfold.
  { induction lines as [|line lines IH]; intros acc; [done|]. simpl.
    rewrite IH. destruct (search _ (chars line)) as [[id state]|]; [|done].
    rewrite last_cons. by destruct (last _) as [[??]|]. }
  rewrite Hfold.
  destruct (last _) as [[id state]|] eqn:Hlast; [|done].
  split; [done|]. split; [apply int_of_digits_nonneg|].
  apply last_Some_elem_of in Hlast.
  apply list_elem_of_omap in Hlast as (line & _ & Hline).
  apply search_some in Hline as [s' Hs']. by eapply current_commitfest_state.
Qed.

#[global] Instance tuple_le_total : Total tuple_le.
Proof.
  intros a b. unfold tuple_le.
  destruct (decide (a.1 = b.1)) as [Heq|Hne].
  - rewrite Heq. destruct (total String.le a.2 b.2); [left|right]; by split.
  - destruct (total String.le a.1 b.1); [left|right]; split; congruence.
Qed.

#[global] Instance tuple_le_trans : Transitive tuple_le.
Proof.
  intros a b c [Hab1 Hab2] [Hbc1 Hbc2]. split; [by etrans|].
  intros Hac. rewrite Hac in Hab1.
  assert (b.1 = c.1) as Hbc by (by apply (anti_symm String.le)).
  assert (a.1 = b.1) as Hab by congruence.
  transitivity b.2; [by apply Hab2|by apply Hbc2].
Qed.

(** The last row of a sorted result is a row of the input that no row
    sorts after. *)
Lemma merge_sort_last {A} (R : relation A) `{!RelDecision R, !Transitive R, !Total R}
  (rows : list A) x :
  last (merge_sort R rows) = Some x ->
  x ∈ rows /\ forall y, y ∈ rows -> R y x.
Proof.
  intros Hlast.
  pose proof (StronglySorted_merge_sort R rows) as Hsorted.
  pose proof (merge_sort_Permutation R rows) as Hperm.
  apply last_Some in Hlast as [sorted Heq]. rewrite Heq in Hsorted, Hperm.
  split.
  - rewrite <- Hperm. apply elem_of_app. right. left.
  - intros y Hy. rewrite <- Hperm in Hy.
    apply elem_of_app in Hy as [Hy|Hy].
    + apply (StronglySorted_app_1_elem_of R sorted [x]); [done..|left].
    + apply list_elem_of_singleton in Hy as ->.
      destruct (total R x x); assumption.
Qed.

(** [get_thread_url_for_submission] returns [None] exactly when no thread
    of the page shows an attachment.  A URL it returns is never empty: it
    is the flat-thread address of the candidate that sorts last, the
    thread with the latest mail time among those with an attachment.  When
    the marker of an attachment comes before any latest mail was seen, the
    candidate is [None] and the function ends in [TypeError]; it raises
    nothing else. *)
Theorem thread_url_is_newest_candidate lines :
  match get_thread_url_for_submission lines with
  | Got None => thread_candidates lines = []
  | Got (Some url) =>
      truthy_url (Some url) = true
      /\ exists newest, Some newest ∈ thread_candidates lines
           /\ url = thread_flat_prefix +:+ newest.2
           /\ forall c, c ∈ thread_candidates lines ->
                exists t, c = Some t /\ tuple_le t newest
  | RpcTypeError => None ∈ thread_candidates lines
  | RpcException _ => False
  end.
Proof.
  unfold get_thread_url_for_submission. fold (thread_candidates lines).
  destruct (decide (thread_candidates lines = [])) as [Hnil|Hne]; [done|].
  destruct (mapM id (thread_candidates lines)) as [tuples|] eqn:Hmap.
  - apply mapM_Some in Hmap.
    destruct (last (merge_sort tuple_le tuples)) as [newest|] eqn:Hlast.
    + apply merge_sort_last in Hlast as [Hin Hmax]; [|apply _..].
      split; [done|]. exists newest. split; [|split; [done|]].
      * apply list_elem_of_lookup in Hin as [i Hi].
        destruct (Forall2_lookup_r _ _ _ _ _ Hmap Hi) as (c & Hc & Hid).
        simpl in Hid. subst c. by eapply list_elem_of_lookup_2.
      * intros c Hc. apply list_elem_of_lookup in Hc as [i Hi].
        destruct (Forall2_lookup_l _ _ _ _ _ Hmap Hi) as (t & Ht & Hid).
        simpl in Hid. exists t. split; [done|].
        apply Hmax. by eapply list_elem_of_lookup_2.
    + apply last_None in Hlast.
      assert (tuples = []) as ->.
      { apply Permutation_nil_r. by rewrite <- Hlast, merge_sort_Permutation. }
      apply Forall2_nil_inv_r in Hmap. done.
  - apply mapM_None in Hmap. apply Exists_exists in Hmap as (c & Hc & Hnone).
    simpl in Hnone. by subst c.
Qed.

(** No candidate means that no line showed an attachment. *)
Lemma thread_candidates_nil lines :
  thread_candidates lines = [] ->
  Forall (fun line => search latest_attachment_match_here (chars line) = None) lines.
Proof.
  unfold thread_candidates.
  assert (forall st, (fold_left thread_scan_line lines st).1 = [] ->
            st.1 = []
            /\ Forall (fun line => search latest_attachment_match_here (chars line) = None)
                      lines) as Hfold.
  { induction lines as [|line lines IH]; intros st Hnil; [by split|].
    simpl in Hnil. destruct (IH _ Hnil) as [Hst Hrest].
    destruct st as [candidates candidate]. unfold thread_scan_line in Hst.
    destruct (search latest_attachment_match_here (chars line)) eqn:Hline.
    - simpl in Hst. by destruct candidates.
    - split; [done|]. by constructor. }
  intros Hnil. by destruct (Hfold _ Hnil).
Qed.

Example thread_url_of_submission_page :
  get_thread_url_for_submission submission_page
  = Got (Some "https://www.postgresql.org/message-id/flat/CA%2Bb%40example.org").
Proof. by vm_compute. Qed.

(** The dots of the host name in the pattern match any character: a link
    to another host that differs there is taken as well, and the address
    returned is still on the archive. *)
Example thread_url_of_other_host :
  get_thread_url_for_submission
    [ "Latest at <a href=" +:+ String dq "https://www-postgresql_org/message-id/m1"
        +:+ String dq ">2022-01-05 10:00:00</a>";
      latest_attachment_line ]
  = Got (Some "https://www.postgresql.org/message-id/flat/m1").
Proof. by vm_compute. Qed.

(** *** The authors of a submission *)

Lemma span_absent (p : ascii -> bool) s c rest :
  Forall (fun x => p x = true) s -> p c = false ->
  span p (s ++ c :: rest) = (s, c :: rest).
Proof.
  intros Hs Hc. induction Hs as [|x s Hx _ IH]; simpl.
  - by rewrite Hc.
  - by rewrite Hx, IH.
Qed.

Lemma strip_literal_app p s : strip_literal p (p ++ s) = Some s.
Proof. induction p as [|a p IH]; [done|]. simpl. by rewrite decide_True. Qed.

Lemma search_skip {A} (here : list ascii -> option A) pre s :
  (forall i, here (drop i pre ++ s) = None \/ (length pre <= i)%nat) ->
  search here (pre ++ s) = search here s.
Proof.
  induction pre as [|c pre IH]; intros Hskip; [done|].
  destruct (Hskip 0%nat) as [Hnone|Hlen]; [|simpl in Hlen; lia].
  simpl in Hnone. cbn [app search]. rewrite Hnone. apply IH.
  intros i. destruct (Hskip (S i)) as [?|?]; [by left|right; simpl in *; lia].
Qed.

Lemma td_match_of_cell cell rest :
  "<"%char ∉ cell ->
  td_match_here (chars "<td>" ++ cell ++ chars "</td>" ++ rest) = Some cell.
Proof.
  intros Hcell. unfold td_match_here.
  rewrite strip_literal_app. cbn [mbind option_bind].
  change (chars "</td>" ++ rest) with ("<"%char :: chars "/td>" ++ rest).
  rewrite span_absent; [| |done].
  - change ("<"%char :: chars "/td>" ++ rest) with (chars "</td>" ++ rest).
    by rewrite strip_literal_app.
  - apply Forall_forall. intros x Hx. apply negb_true_iff, bool_decide_eq_false.
    by intros ->.
Qed.

Lemma split_comma_space_last cur e :
  ","%char ∉ e -> split_comma_space cur e = [reverse cur ++ e].
Proof.
  revert cur. induction e as [|c e IH]; intros cur He.
  - simpl. by rewrite app_nil_r.
  - apply not_elem_of_cons in He as [Hc He].
    cbn [split_comma_space]. destruct e as [|c' e'].
    + simpl. by rewrite reverse_cons.
    + rewrite decide_False by (intros [? _]; congruence).
      rewrite (IH (c :: cur) He). by rewrite reverse_cons, <- app_assoc.
Qed.

Lemma split_comma_space_next cur e rest :
  ","%char ∉ e ->
  split_comma_space cur (e ++ chars ", " ++ rest)
  = (reverse cur ++ e) :: split_comma_space [] rest.
Proof.
  revert cur. induction e as [|c e IH]; intros cur He.
  - simpl. by rewrite app_nil_r.
  - apply not_elem_of_cons in He as [Hc He].
    change ((c :: e) ++ chars ", " ++ rest) with (c :: (e ++ chars ", " ++ rest)).
    cbn [split_comma_space].
    destruct (e ++ chars ", " ++ rest) as [|c' s''] eqn:Hs.
    { by destruct e. }
    rewrite decide_False by (intros [? _]; congruence).
    rewrite (IH (c :: cur) He). by rewrite reverse_cons, <- app_assoc.
Qed.

Lemma author_tail_none t : "("%char ∉ t -> author_tail_here t = None.
Proof.
  intros Ht. unfold author_tail_here.
  destruct (span _ t) as [spaces rest] eqn:Hspan.
  destruct (decide (spaces = [])); [done|].
  assert ("("%char ∉ rest) as Hrest.
  { clear -Ht Hspan. revert spaces rest Hspan.
    induction t as [|c t IH]; intros spaces rest; simpl.
    - by intros [= <- <-].
    - apply not_elem_of_cons in Ht as [Hc Ht].
      destruct (bool_decide (c = " "%char)).
      + destruct (span _ t) as [run rest']. intros [= <- <-]. by eapply IH.
      + intros [= <- <-]. by apply not_elem_of_cons. }
  destruct rest as [|c rest]; [done|].
  apply not_elem_of_cons in Hrest as [Hc _]. simpl.
  by rewrite decide_False.
Qed.

Lemma author_match_cons c s :
  author_match_here (c :: s)
  = if decide (c = "010"%char)
    then (fun user => ([], user)) <$> author_tail_here (c :: s)
    else match author_match_here s with
         | Some (name, user) => Some (c :: name, user)
         | None => (fun user => ([], user)) <$> author_tail_here (c :: s)
         end.
Proof. done. Qed.

Lemma author_match_none_after user t :
  "("%char ∉ user -> t `suffix_of` user ++ chars ")" -> author_match_here t = None.
Proof.
  intros Huser. induction t as [|c t IH]; intros Hsuf; [done|].
  assert ("("%char ∉ c :: t) as Hno.
  { intros Hin. eapply elem_of_suffix in Hin; [|exact Hsuf].
    apply elem_of_app in Hin as [Hin|Hin]; [done|].
    apply list_elem_of_singleton in Hin. discriminate. }
  rewrite author_match_cons, (author_tail_none (c :: t) Hno).
  rewrite IH by (by eapply suffix_cons_l).
  by destruct (decide _).
Qed.

Lemma author_tail_of_rendered user :
  ")"%char ∉ chars user ->
  author_tail_here (chars " (" ++ chars user ++ chars ")") = Some (chars user).
Proof.
  intros Hclose. unfold author_tail_here.
  change (span (fun c => bool_decide (c = " "%char))
               (chars " (" ++ chars user ++ chars ")"))
    with ([" "%char], "("%char :: chars user ++ chars ")").
  cbv beta iota.
  rewrite decide_False by done.
  change ("("%char :: chars user ++ chars ")")
    with (chars "(" ++ chars user ++ chars ")").
  rewrite strip_literal_app. cbn [mbind option_bind].
  change (chars ")") with [")"%char].
  rewrite (span_absent _ (chars user) ")"%char []); [| |done].
  2:{ apply Forall_forall. intros x Hx. apply negb_true_iff, bool_decide_eq_false.
  by intros ->. }
  cbv beta iota. change [")"%char] with (chars ")" ++ []). rewrite strip_literal_app. done.
Qed.

Lemma author_match_of_rendered name user :
  "010"%char ∉ chars name -> "("%char ∉ chars user -> ")"%char ∉ chars user ->
  author_match_here (render_author (name, user)) = Some (chars name, chars user).
Proof.
  intros Hname Hopen Hclose. unfold render_author. simpl fst. simpl snd.
  induction (chars name) as [|c n IH].
  - rewrite app_nil_l.
    pose proof (author_tail_of_rendered user Hclose) as Htail.
    change (chars " (" ++ chars user ++ chars ")")
      with (" "%char :: "("%char :: chars user ++ chars ")") in *.
    rewrite author_match_cons, decide_False by done.
    rewrite (author_match_cons "("%char), decide_False by done.
    rewrite (author_match_none_after (chars user) (chars user ++ chars ")")) by done.
    assert (author_tail_here ("("%char :: chars user ++ chars ")") = None) as ->.
    { unfold author_tail_here. simpl. done. }
    rewrite Htail. done.
  - apply not_elem_of_cons in Hname as [Hc Hn].
    change ((c :: n) ++ chars " (" ++ chars user ++ chars ")")
      with (c :: (n ++ chars " (" ++ chars user ++ chars ")")).
    rewrite author_match_cons, decide_False by done.
    by rewrite (IH Hn).
Qed.

Lemma search_here {A} (here : list ascii -> option A) s g :
  here s = Some g -> search here s = Some g.
Proof. intros Hs. destruct s; simpl; by rewrite Hs. Qed.

Lemma render_author_absent c a :
  c ∉ chars a.1 -> c ∉ chars a.2 -> c ∉ [" "; "("; ")"]%char ->
  c ∉ render_author a.
Proof.
  intros Hname Huser Hc. unfold render_author.
  rewrite !not_elem_of_app. split; [done|]. split; [|split; [done|]].
  - intros Hin. apply Hc. simpl in Hin.
    apply elem_of_cons in Hin as [->|Hin]; [by left|].
    apply list_elem_of_singleton in Hin as ->. by right; left.
  - intros Hin. apply Hc. simpl in Hin.
    apply list_elem_of_singleton in Hin as ->. by right; right; left.
Qed.

Lemma plain_author_absent c a :
  plain_author a -> c = "<"%char \/ c = ","%char -> c ∉ render_author a.
Proof.
  intros [Hname Huser] Hc. unfold plain_name, plain_user in *.
  rewrite Forall_forall in Hname, Huser.
  apply render_author_absent.
  - intros Hin. apply (Hname c Hin). destruct Hc as [->| ->]; [by left|by right; left].
  - intros Hin. apply (Huser c Hin). destruct Hc as [->| ->]; [by left|by right; left].
  - destruct Hc as [->| ->]; apply (bool_decide_eq_false_1 _); by vm_compute.
Qed.

Lemma render_authors_cons a b rest :
  render_authors (a :: b :: rest)
  = render_author a ++ chars ", " ++ render_authors (b :: rest).
Proof. done. Qed.

Lemma render_authors_no_angle authors :
  Forall plain_author authors -> "<"%char ∉ render_authors authors.
Proof.
  induction 1 as [|a authors Ha Hall IH]; [apply not_elem_of_nil|].
  destruct authors as [|b rest].
  - simpl. apply plain_author_absent; auto.
  - rewrite render_authors_cons, !not_elem_of_app.
    split; [apply plain_author_absent; auto|]. split; [|done].
    apply (bool_decide_eq_false_1 _). by vm_compute.
Qed.

Lemma split_rendered_authors authors :
  Forall plain_author authors -> authors ≠ [] ->
  split_comma_space [] (render_authors authors) = render_author <$> authors.
Proof.
  induction 1 as [|a authors Ha Hall IH]; [done|]. intros _.
  destruct authors as [|b rest].
  - simpl. rewrite split_comma_space_last by (apply plain_author_absent; auto). done.
  - rewrite render_authors_cons.
    rewrite split_comma_space_next by (apply plain_author_absent; auto).
    rewrite IH by done. done.
Qed.

Lemma parse_rendered_authors authors (ret : gmap string string) :
  Forall plain_author authors ->
  fold_left (fun (ret : gmap string string) au =>
               match search author_match_here au with
               | Some (name, user) => <[of_chars user := of_chars name]> ret
               | None => ret
               end) (render_author <$> authors) ret
  = fold_left (fun (ret : gmap string string) a => <[a.2 := a.1]> ret) authors ret.
Proof.
  intros Hall. revert ret. induction Hall as [|[name user] authors [Hname Huser] _ IH];
    intros ret; [done|].
  simpl. rewrite (search_here _ _ (chars name, chars user)).
  - rewrite !String.string_of_list_ascii_of_string. apply IH.
  - unfold plain_name, plain_user in *. simpl in *.
    rewrite Forall_forall in Hname, Huser.
    apply author_match_of_rendered.
    + intros Hin. apply (Hname _ Hin). by right; right; left.
    + intros Hin. apply (Huser _ Hin). by right; right; left.
    + intros Hin. apply (Huser _ Hin). by right; right; right; left.
Qed.

Lemma authors_dict_snoc authors a :
  authors_dict (authors ++ [a]) = <[a.2 := a.1]> (authors_dict authors).
Proof. unfold authors_dict. by rewrite fold_left_app. Qed.

Lemma authors_dict_lookup authors name user :
  NoDup authors.*2 -> (name, user) ∈ authors ->
  authors_dict authors !! user = Some name.
Proof.
  induction authors as [|a authors IH] using rev_ind; intros Hdup Hin.
  - by apply elem_of_nil in Hin.
  - rewrite authors_dict_snoc. rewrite fmap_app in Hdup.
    apply NoDup_app in Hdup as (Hdup & Hfresh & _).
    apply elem_of_app in Hin as [Hin|Hin].
    + rewrite lookup_insert_ne; [by apply IH|].
      intros Heq. apply (Hfresh user).
      * apply list_elem_of_fmap. by exists (name, user).
      * rewrite <- Heq. left.
    + apply list_elem_of_singleton in Hin as <-. apply lookup_insert_eq.
Qed.

(** [parse_authors] reads back a rendered authors cell.  A line made of an
    indent without an angle bracket, one [<td>] cell listing the authors as
    [Name (user)] separated by a comma and a space, and anything after the
    closing tag, gives the dictionary that maps every user name to its
    display name, a later author replacing an earlier one of the same user
    name (cfbot_commitfest_rpc.py, parse_authors).  With distinct user names
    every listed author is found under its user name. *)
Theorem parse_authors_of_rendered indent authors rest :
  "<"%char ∉ chars indent ->
  Forall (fun a => plain_name a.1 /\ plain_user a.2) authors ->
  parse_authors (authors_line indent authors rest) = authors_dict authors
  /\ (NoDup authors.*2 ->
      forall name user, (name, user) ∈ authors ->
        parse_authors (authors_line indent authors rest) !! user = Some name).
Proof.
  intros Hindent Hall.
  assert (parse_authors (authors_line indent authors rest) = authors_dict authors) as Heq.
  { unfold parse_authors, authors_line. rewrite !chars_app.
    rewrite String.list_ascii_of_string_of_list_ascii.
    rewrite search_skip.
    2:{ intros i. destruct (drop i (chars indent)) as [|c tl] eqn:Hdrop.
        - right. apply drop_nil_inv in Hdrop. done.
        - left. assert (c ∈ chars indent) as Hc.
          { eapply elem_of_suffix; [left|]. rewrite <- Hdrop. apply suffix_drop. }
          unfold td_match_here. simpl.
          rewrite decide_False; [done|]. by intros <-. }
    rewrite (search_here _ _ (render_authors authors)).
    2:{ apply td_match_of_cell. by apply render_authors_no_angle. }
    destruct authors as [|a authors]; [done|].
    rewrite split_rendered_authors by done.
    by rewrite parse_rendered_authors. }
  split; [done|]. intros Hdup name user Hin. rewrite Heq.
  by apply authors_dict_lookup.
Qed.

Lemma parse_authors_of_rendered_witness :
  parse_authors "      <td>Tom Lane (tgl), Andres Freund (andres)</td>" !! "andres"
  = Some "Andres Freund".
Proof.
  refine (proj2 (parse_authors_of_rendered
                   "      " [("Tom Lane", "tgl"); ("Andres Freund", "andres")] "" _ _)
                _ "Andres Freund" "andres" _).
  - apply (bool_decide_unpack _). vm_compute. reflexivity.
  - repeat apply Forall_cons; try apply Forall_nil;
      (split; apply (bool_decide_unpack _); vm_compute; reflexivity).
  - apply (bool_decide_unpack _). vm_compute. reflexivity.
  - apply (bool_decide_unpack _). vm_compute. reflexivity.
Defined.
